(** * ByeSky: the fetch, filter, back up and delete pipeline of [byesky.py]

    A shallow embedding of [src/byesky.py].  Pure code (the filter chain, the
    timestamp normalisation, the repost classification, the token choice of
    [cli]) is embedded as functions; code with effects (network calls, file
    handles, the progress bar) runs in a small state, error and trace monad
    over an explicit [World].

    Library calls whose body is not in the repository ([dateutil], [re],
    [str.lower]) are fields of a [Platform] record, a variable of the main
    section.  Strings are Rocq strings, read as UTF-8 text. *)

From Stdlib Require Import ZArith List String Ascii Bool Lia.
From stdpp Require Import gmap strings list fin_maps.

Local Open Scope string_scope.
Local Open Scope list_scope.
Local Open Scope Z_scope.

(** ** Exceptions and results *)

Inductive exn : Type :=
| ValueError | OverflowError | AttributeError | ReError
| NetworkError | AuthError | OSError
| LoopBudget (* the model's pagination budget ran out; see [fetch_all_budget] *).

Inductive Result (A : Type) : Type :=
| Ok (a : A)
| Raise (e : exn).
Arguments Ok {A} a.
Arguments Raise {A} e.

Definition rbind {A B} (r : Result A) (k : A -> Result B) : Result B :=
  match r with Ok a => k a | Raise e => Raise e end.

Declare Scope result_scope.
Delimit Scope result_scope with result.
Notation "x <~ r ;; k" := (rbind r (fun x => k))
  (at level 100, r at next level, right associativity) : result_scope.

Fixpoint rmap_list {A B} (f : A -> Result B) (l : list A) : Result (list B) :=
  match l with
  | [] => Ok []
  | x :: l' => (y <~ f x ;; ys <~ rmap_list f l' ;; Ok (y :: ys))%result
  end.

(** ** Python values used by the source *)

(** [datetime]: the wall-clock fields as microseconds since
    0001-01-01T00:00:00, and [tzinfo] as the UTC offset in microseconds
    ([None] for an offset-naive value). *)
Record datetime : Type := mk_datetime { wall : Z; tzinfo : option Z }.

Definition DT_MAX : Z := 3652059 * 86400 * 1000000 - 1.
Definition dt_in_range (z : Z) : bool := (0 <=? z) && (z <=? DT_MAX).

Definition utc_datetime (z : Z) : datetime := mk_datetime z (Some 0).

(** The instant an offset-aware datetime denotes, on the UTC time line.  The
    source only compares datetimes that carry [timezone.utc]. *)
Definition instant (d : datetime) : Z := wall d - default 0 (tzinfo d).

Definition dt_ltb (a b : datetime) : bool := instant a <? instant b.
Definition dt_gtb (a b : datetime) : bool := instant b <? instant a.

Inductive pyval : Type :=
| PyNone
| PyStr (s : string)
| PyInt (z : Z).

Definition pyval_eqb (a b : pyval) : bool :=
  match a, b with
  | PyNone, PyNone => true
  | PyStr s, PyStr t => String.eqb s t
  | PyInt x, PyInt y => x =? y
  | _, _ => false
  end.

(** [post.embed]: an object read through attributes, or a [dict]. *)
Inductive embed_value : Type :=
| EmbedObject (attrs : gmap string pyval)
| EmbedDict (items : gmap string pyval).

(** [item.post].  [record_text] is [post.record.dict().get("text")], [reply]
    and [embed] are [getattr(post, _, None)]. *)
Record PostView : Type := mk_post {
  uri : string;
  indexed_at : string;
  record_text : option string;
  reply : option string;
  embed : option embed_value
}.

Record FeedViewPost : Type := mk_item { post : PostView }.

Record FeedResponse : Type := mk_feed {
  feed : list FeedViewPost;
  cursor : option string
}.

(** Truthiness of [None], [""] and a string. *)
Definition str_truthy (s : option string) : bool :=
  match s with
  | None => false
  | Some s => negb (String.eqb s "")
  end.

(** ** Library functions taken as parameters *)

Record Platform : Type := mk_platform {
  regex : Type;
  (* re.compile(p, re.IGNORECASE) *)
  re_compile : string -> Result regex;
  (* p.search(text) is not None *)
  re_search : regex -> string -> bool;
  (* str.lower *)
  str_lower : string -> string;
  (* dateutil.parser.isoparse *)
  isoparse : string -> Result datetime;
  (* dateutil.parser.parse *)
  dateutil_parse : string -> Result datetime;
  (* UTC offset of the system time zone at a given local wall clock *)
  local_utcoffset : Z -> Z
}.

(** ** String helpers written out: [a in b], [replace("\n", " ")], [split("/")[-1]] *)

Fixpoint str_prefixb (a b : string) : bool :=
  match a, b with
  | EmptyString, _ => true
  | String x a', String y b' => Ascii.eqb x y && str_prefixb a' b'
  | String _ _, EmptyString => false
  end.

(** Python's [a in b] on strings. *)
Fixpoint str_in (a b : string) : bool :=
  str_prefixb a b ||
  match b with
  | EmptyString => false
  | String _ b' => str_in a b'
  end.

Definition newline : ascii := ascii_of_nat 10.
Definition space : ascii := ascii_of_nat 32.
Definition slash : ascii := ascii_of_nat 47.

(** [text.replace("\n", " ")] *)
Fixpoint replace_newlines (s : string) : string :=
  match s with
  | EmptyString => EmptyString
  | String c s' =>
      String (if Ascii.eqb c newline then space else c) (replace_newlines s')
  end.

(** [uri.split("/")[-1]]: what follows the last slash. *)
Fixpoint last_segment_acc (acc s : string) : string :=
  match s with
  | EmptyString => acc
  | String c s' =>
      if Ascii.eqb c slash then last_segment_acc EmptyString s'
      else last_segment_acc (acc +:+ String c EmptyString) s'
  end.

Definition last_segment (s : string) : string := last_segment_acc EmptyString s.

(** ** Repost classification (lines 103-108) *)

Definition REPOST_VIEW : string := "app.bsky.embed.record#view".

Definition embed_truthy (e : embed_value) : bool :=
  match e with
  | EmbedObject _ => true
  | EmbedDict d => negb (bool_decide (d = ∅))
  end.

Definition embed_hasattr (e : embed_value) (name : string) : bool :=
  match e with
  | EmbedObject a => bool_decide (is_Some (a !! name))
  | EmbedDict _ => false
  end.

Definition embed_getattr (e : embed_value) (name : string) : Result pyval :=
  match e with
  | EmbedObject a =>
      match a !! name with
      | Some v => Ok v
      | None => Raise AttributeError
      end
  | EmbedDict _ => Raise AttributeError
  end.

Definition embed_isdict (e : embed_value) : bool :=
  match e with
  | EmbedObject _ => false
  | EmbedDict _ => true
  end.

(** [embed.get("$type")] of a dict *)
Definition embed_get (e : embed_value) (key : string) : Result pyval :=
  match e with
  | EmbedObject _ => Raise AttributeError
  | EmbedDict d => Ok (default PyNone (d !! key))
  end.

Definition is_repost_of (embed : option embed_value) : Result bool :=
  match embed with
  | None => Ok false
  | Some e =>
      if embed_truthy e && embed_hasattr e "$type" then
        (v <~ embed_getattr e "type" ;; Ok (pyval_eqb v (PyStr REPOST_VIEW)))%result
      else if embed_truthy e && embed_isdict e then
        (v <~ embed_get e "$type" ;; Ok (pyval_eqb v (PyStr REPOST_VIEW)))%result
      else Ok false
  end.

(** The type an embed descriptor declares: its ["$type"] attribute or key. *)
Definition declared_type (embed : option embed_value) : option pyval :=
  match embed with
  | None => None
  | Some (EmbedObject a) => a !! "$type"
  | Some (EmbedDict d) => d !! "$type"
  end.

Definition is_reply_of (p : PostView) : bool :=
  match reply p with Some _ => true | None => false end.

(** ** Compiled patterns and matched entries *)

(** [compiled_patterns] together with [use_regex] (lines 71-76): compiled
    regular expressions, or the patterns as given. *)
Inductive Matchers (rx : Type) : Type :=
| Regexes (l : list rx)       (* use_regex: compiled patterns *)
| Substrings (l : list string) (* otherwise: the patterns as given *).
Arguments Regexes {rx} l.
Arguments Substrings {rx} l.

Definition matchers_empty {rx} (m : Matchers rx) : bool :=
  match m with
  | Regexes [] | Substrings [] => true
  | _ => false
  end.

(** An element of [posts]: [(item.post.uri, item.post, pt)] (line 126). *)
Definition Matched : Type := string * PostView * datetime.

(** ** The world: network answers, file system, open handles *)

Inductive Handle : Type := HBackup | HLog.

Definition handle_eqb (a b : Handle) : bool :=
  match a, b with
  | HBackup, HBackup | HLog, HLog => true
  | _, _ => false
  end.

(** One line of the backup file: [{"uri": .., "datetime": pt.isoformat(), "post": post.dict()}] *)
Record BackupEntry : Type := mk_entry {
  be_uri : string;
  be_datetime : datetime;
  be_post : PostView
}.

(** Every call that leaves the process, in the order issued.  Network events
    carry the answer received. *)
Inductive Event : Type :=
| EvLogin (handle token : string)
| EvFetchFeedPage (actor : string) (cur : option string) (limit : Z)
| EvGetAuthorFeed (actor : string) (cur : option string) (limit : Z)
                  (answer : Result FeedResponse)
| EvOpen (h : Handle) (path : string)
| EvWriteLog (pt : datetime) (text : string)
| EvWriteBackup (entry : BackupEntry)
| EvClose (h : Handle)
| EvDeleteRecord (handle uri : string)
| EvRepoDeleteRecord (repo collection rkey : string) (answer : Result unit)
| EvGetpass.

(** [feed_script] and [delete_script] hold the service's answers, one per
    attempt, and the service is unreachable once they are used up;
    [fs_script] tells which file operations succeed, all of them once it is
    used up. *)
Record World : Type := mk_world {
  now_utc : Z;
  login_ok : bool;
  feed_script : list (Result FeedResponse);
  delete_script : list (Result unit);
  fs_script : list bool;
  open_handles : list Handle
}.

Definition set_feed_script (w : World) (s : list (Result FeedResponse)) : World :=
  mk_world (now_utc w) (login_ok w) s (delete_script w) (fs_script w) (open_handles w).
Definition set_delete_script (w : World) (s : list (Result unit)) : World :=
  mk_world (now_utc w) (login_ok w) (feed_script w) s (fs_script w) (open_handles w).
Definition set_fs_script (w : World) (s : list bool) : World :=
  mk_world (now_utc w) (login_ok w) (feed_script w) (delete_script w) s (open_handles w).
Definition set_open_handles (w : World) (hs : list Handle) : World :=
  mk_world (now_utc w) (login_ok w) (feed_script w) (delete_script w) (fs_script w) hs.

(** ** The monad: state, exceptions and the trace of events *)

Record Run (A : Type) : Type := mk_run {
  outcome : Result A;
  final : World;
  events : list Event
}.
Arguments mk_run {A} outcome final events.
Arguments outcome {A} r.
Arguments final {A} r.
Arguments events {A} r.

Definition M (A : Type) : Type := World -> Run A.

Definition ret {A} (a : A) : M A := fun w => mk_run (Ok a) w [].
Definition raise {A} (e : exn) : M A := fun w => mk_run (Raise e) w [].
Definition lift {A} (r : Result A) : M A := fun w => mk_run r w [].
Definition emit (ev : Event) : M unit := fun w => mk_run (Ok tt) w [ev].

Definition bind {A B} (m : M A) (k : A -> M B) : M B :=
  fun w =>
    let r := m w in
    match outcome r with
    | Ok a =>
        let r' := k a (final r) in
        mk_run (outcome r') (final r') (events r ++ events r')
    | Raise e => mk_run (Raise e) (final r) (events r)
    end.

Declare Scope pipeline_scope.
Delimit Scope pipeline_scope with M.
Notation "x <- m ;; k" := (bind m (fun x => k))
  (at level 100, m at next level, right associativity) : pipeline_scope.
Notation "m ;;; k" := (bind m (fun _ => k))
  (at level 100, right associativity) : pipeline_scope.
Local Open Scope pipeline_scope.

(** [try: m except Exception as e: h e] *)
Definition try_except {A} (m : M A) (h : exn -> M A) : M A :=
  fun w =>
    let r := m w in
    match outcome r with
    | Ok _ => r
    | Raise e =>
        let r' := h e (final r) in
        mk_run (outcome r') (final r') (events r ++ events r')
    end.

(** The exit of a [with] block: [c] runs on every way out of [m]. *)
Definition finally {A} (m : M A) (c : M unit) : M A :=
  fun w =>
    let r := m w in
    let r' := c (final r) in
    mk_run (outcome r) (final r') (events r ++ events r').

(** Lines 28-33: three attempts, the last exception re-raised. *)
Definition retry_on_network {A} (f : M A) : M A :=
  try_except f (fun _ => try_except f (fun _ => f)).

(** ** Network calls *)

(** [client.app.bsky.feed.get_author_feed] *)
Definition get_author_feed (actor : string) (cur : option string) (limit : Z)
  : M FeedResponse :=
  fun w =>
    match feed_script w with
    | [] => mk_run (Raise NetworkError) w
              [EvGetAuthorFeed actor cur limit (Raise NetworkError)]
    | ans :: rest => mk_run ans (set_feed_script w rest)
              [EvGetAuthorFeed actor cur limit ans]
    end.

(** Lines 36-42 *)
Definition fetch_feed_page (actor : string) (cur : option string) (limit : Z)
  : M FeedResponse :=
  emit (EvFetchFeedPage actor cur limit) ;;;
  retry_on_network (get_author_feed actor cur limit).

(** [client.com.atproto.repo.delete_record] *)
Definition repo_delete_record (repo collection rkey : string) : M unit :=
  fun w =>
    match delete_script w with
    | [] => mk_run (Raise NetworkError) w
              [EvRepoDeleteRecord repo collection rkey (Raise NetworkError)]
    | ans :: rest => mk_run ans (set_delete_script w rest)
              [EvRepoDeleteRecord repo collection rkey ans]
    end.

(** Lines 44-51 *)
Definition delete_record (handle uri : string) : M unit :=
  emit (EvDeleteRecord handle uri) ;;;
  retry_on_network
    (let rkey := last_segment uri in
     repo_delete_record handle "app.bsky.feed.post" rkey).

(** [client.login] *)
Definition login (handle token : string) : M unit :=
  emit (EvLogin handle token) ;;;
  fun w => mk_run (if login_ok w then Ok tt else Raise AuthError) w [].

Definition get_now : M Z := fun w => mk_run (Ok (now_utc w)) w [].

(** ** Files *)

Definition fs_op : M unit :=
  fun w =>
    match fs_script w with
    | [] => mk_run (Ok tt) w []
    | ok :: rest =>
        mk_run (if ok : bool then Ok tt else Raise OSError) (set_fs_script w rest) []
    end.

Fixpoint remove_handle (h : Handle) (hs : list Handle) : list Handle :=
  match hs with
  | [] => []
  | h' :: hs' => if handle_eqb h h' then hs' else h' :: remove_handle h hs'
  end.

Definition open_file (h : Handle) (path : string) : M unit :=
  emit (EvOpen h path) ;;;
  fs_op ;;;
  fun w => mk_run (Ok tt) (set_open_handles w (h :: open_handles w)) [].

Definition close_file (h : Handle) : M unit :=
  emit (EvClose h) ;;;
  fun w => mk_run (Ok tt) (set_open_handles w (remove_handle h (open_handles w))) [].

(** [f.write(f"{pt.strftime(..)} UTC  {text}\n---\n")] *)
Definition write_log (pt : datetime) (text : string) : M unit :=
  emit (EvWriteLog pt text) ;;; fs_op.

(** [backup_fh.write(json.dumps(entry, ensure_ascii=False) + "\n")] *)
Definition write_backup (entry : BackupEntry) : M unit :=
  emit (EvWriteBackup entry) ;;; fs_op.

(** [with open(path, "a") as f: body] *)
Definition with_open {A} (h : Handle) (path : string) (body : M A) : M A :=
  open_file h path ;;;
  finally body (close_file h).

(** ** The progress bar *)

(** [tqdm]: [update()] returns at once on a disabled bar, so [n] stays
    where it was. *)
Record Tqdm : Type := mk_tqdm { tqdm_disable : bool; tqdm_n : nat }.

Definition tqdm_new (disable : bool) : Tqdm := mk_tqdm disable 0.

Definition tqdm_update (bar : Tqdm) : Tqdm :=
  if tqdm_disable bar then bar
  else mk_tqdm (tqdm_disable bar) (S (tqdm_n bar)).

Record Args : Type := mk_args {
  handle : string;
  token : string;
  days_old : Z;
  preview_only : bool;
  log_file : option string;
  match_patterns : list string;
  use_regex : bool;
  after : option string;
  before : option string;
  backup_file : option string;
  include_replies : bool;
  include_reposts : bool;
  quiet : bool
}.

Record RunResult : Type := mk_result {
  scanned : nat;
  matched : nat;
  deleted : nat;
  failed : nat
}.

(** ** The loop over the matched posts *)

(** Lines 158-176: the body of [for uri, post, pt in post_bar]. *)
Definition process_one (a : Args) (m : Matched) (counts : nat * nat) : M (nat * nat) :=
  let '(uri, post, pt) := m in
  let '(deleted, failed) := counts in
  let text := default "" (record_text post) in
  let text := replace_newlines text in
  write_log pt text ;;;
  if negb (preview_only a) then
    write_backup (mk_entry uri pt post) ;;;
    try_except
      (delete_record (handle a) uri ;;; ret (S deleted, failed))
      (fun _ => ret (deleted, S failed))
  else ret (deleted, failed).

Fixpoint process_loop (a : Args) (posts : list Matched) (counts : nat * nat)
  : M (nat * nat) :=
  match posts with
  | [] => ret counts
  | m :: rest =>
      counts <- process_one a m counts ;;
      process_loop a rest counts
  end.

(** ** Helpers of [cli] *)

Definition is_space (c : ascii) : bool :=
  let k := nat_of_ascii c in
  ((9 <=? k) && (k <=? 13) || (28 <=? k) && (k <=? 32))%nat.

Fixpoint lstrip (s : string) : string :=
  match s with
  | EmptyString => EmptyString
  | String c s' => if is_space c then lstrip s' else s
  end.

Fixpoint rstrip (s : string) : string :=
  match s with
  | EmptyString => EmptyString
  | String c s' =>
      match rstrip s' with
      | EmptyString => if is_space c then EmptyString else String c EmptyString
      | r => String c r
      end
  end.

Definition strip (s : string) : string := rstrip (lstrip s).

Record CliEnv : Type := mk_clienv {
  environ : gmap string string;
  getpass_answer : string
}.

(** Lines 231-234 *)
Definition resolve_token (env : CliEnv) (token : option string) : M string :=
  let token := if str_truthy token then token
               else environ env !! "BYESKY_TOKEN" in
  if str_truthy token then ret (default "" token)
  else emit EvGetpass ;;; ret (strip (getpass_answer env)).

(** ** The filter chain (lines 90-126) and the run, over a platform *)

Section Pipeline.

Variable P : Platform.

Record Criteria : Type := mk_criteria {
  cutoff : datetime;
  after_dt : option datetime;
  before_dt : option datetime;
  compiled_patterns : Matchers (regex P);
  includeReplies : bool;
  includeReposts : bool
}.

(** [datetime.astimezone(timezone.utc)].  An offset-naive value is taken to be
    in the system time zone (Python 3.6 and later; the source uses f-strings).
    The result leaves the datetime range with [OverflowError]. *)
Definition astimezone_utc (d : datetime) : Result datetime :=
  let off := match tzinfo d with
             | Some o => o
             | None => local_utcoffset P (wall d)
             end in
  let u := wall d - off in
  if dt_in_range u then Ok (utc_datetime u) else Raise OverflowError.

(** [pt.replace(tzinfo=timezone.utc)] *)
Definition replace_tzinfo_utc (d : datetime) : datetime :=
  mk_datetime (wall d) (Some 0).

(** Lines 91-94: [try: pt = pt.astimezone(utc) except Exception: pt = pt.replace(tzinfo=utc)] *)
Definition normalize_indexed_at (pt : datetime) : datetime :=
  match astimezone_utc pt with
  | Ok pt' => pt'
  | Raise _ => replace_tzinfo_utc pt
  end.

(** Lines 119-124 *)
Definition patterns_match (m : Matchers (regex P)) (text : string) : bool :=
  if matchers_empty m then true
  else match m with
       | Regexes l => existsb (fun p => re_search P p text) l
       | Substrings l =>
           existsb (fun p => str_in (str_lower P p) (str_lower P text)) l
       end.

(** Lines 114-118 *)
Definition in_range_of (c : Criteria) (pt : datetime) : bool :=
  let in_range := true in
  let in_range :=
    match after_dt c with
    | Some a => if dt_ltb pt a then false else in_range
    | None => in_range
    end in
  match before_dt c with
  | Some b => if dt_gtb pt b then false else in_range
  | None => in_range
  end.

(** The body of [for item in feed.feed]: [Some] is [posts.append(...)]. *)
Definition scan_item (c : Criteria) (item : FeedViewPost) : Result (option Matched) :=
  (pt <~ isoparse P (indexed_at (post item)) ;;
   let pt := normalize_indexed_at pt in
   let text := default "" (record_text (post item)) in
   if dt_ltb pt (cutoff c) then
     let is_reply := is_reply_of (post item) in
     is_repost <~ is_repost_of (embed (post item)) ;;
     if (is_reply && negb (includeReplies c))
        || (is_repost && negb (includeReposts c))
     then Ok None
     else
       let in_range := in_range_of c pt in
       let matched := patterns_match (compiled_patterns c) text in
       if in_range && matched
       then Ok (Some (uri (post item), post item, pt))
       else Ok None
   else Ok None)%result.

Fixpoint scan_feed (c : Criteria) (items : list FeedViewPost) (posts : list Matched)
  : Result (list Matched) :=
  match items with
  | [] => Ok posts
  | item :: rest =>
      (m <~ scan_item c item ;;
       scan_feed c rest (match m with Some x => posts ++ [x] | None => posts end))%result
  end.

(** Lines 70-76 *)
Definition prepare_matchers (match_patterns : list string) (use_regex : bool)
  : Result (Matchers (regex P)) :=
  match match_patterns with
  | [] => Ok (Substrings [])
  | _ =>
      if use_regex
      then (l <~ rmap_list (re_compile P) match_patterns ;; Ok (Regexes l))%result
      else Ok (Substrings match_patterns)
  end.

(** Line 61: [datetime.now(timezone.utc) - timedelta(days=days_old)] *)
Definition TIMEDELTA_MAX_DAYS : Z := 999999999.
Definition MICROS_PER_DAY : Z := 86400 * 1000000.

Definition compute_cutoff (now : Z) (days_old : Z) : Result datetime :=
  if TIMEDELTA_MAX_DAYS <? Z.abs days_old then Raise OverflowError
  else
    let c := now - days_old * MICROS_PER_DAY in
    if dt_in_range c then Ok (utc_datetime c) else Raise OverflowError.

(** Lines 64-65: [parser.parse(s).astimezone(timezone.utc) if s else None] *)
Definition parse_bound (s : option string) : Result (option datetime) :=
  if str_truthy s then
    (d <~ dateutil_parse P (default "" s) ;;
     d' <~ astimezone_utc d ;;
     Ok (Some d'))%result
  else Ok None.

(** ** [process_posts] *)

(** Lines 87-130: the [while True] loop.  [budget] bounds the number of
    pages; [process_posts] gives one more than the number of answers the
    service still has. *)
Fixpoint fetch_all (budget : nat) (c : Criteria) (actor : string)
    (cur : option string) (posts : list Matched) (page_bar : Tqdm)
  : M (list Matched * Tqdm) :=
  match budget with
  | O => raise LoopBudget
  | S budget' =>
      fd <- fetch_feed_page actor cur 50 ;;
      posts <- lift (scan_feed c (feed fd) posts) ;;
      let cur := cursor fd in
      let page_bar := tqdm_update page_bar in
      if negb (str_truthy cur) then ret (posts, page_bar)
      else fetch_all budget' c actor cur posts page_bar
  end.

Definition page_budget : M nat :=
  fun w => mk_run (Ok (S (length (feed_script w)))) w [].

Definition criteria_of (a : Args) (now : Z) : Result Criteria :=
  (cutoff <~ compute_cutoff now (days_old a) ;;
   after_dt <~ parse_bound (after a) ;;
   before_dt <~ parse_bound (before a) ;;
   compiled_patterns <~ prepare_matchers (match_patterns a) (use_regex a) ;;
   Ok (mk_criteria cutoff after_dt before_dt compiled_patterns
         (include_replies a) (include_reposts a)))%result.

(** Lines 132-185: what [process_posts] does once pagination is over. *)
Definition process_matched (a : Args) (posts : list Matched) (page_bar : Tqdm)
  : M RunResult :=
  let total := length posts in
  if Nat.eqb total 0 then
    ret (mk_result (tqdm_n page_bar * 50) 0 0 0)
  else
    let log_file :=
      if str_truthy (log_file a) then default "" (log_file a)
      else if preview_only a then "preview_log.txt" else "deleted_posts_log.txt" in
    let backup_file :=
      if str_truthy (backup_file a) then default "" (backup_file a)
      else "deleted_posts_backup.jsonl" in
    backup_fh <- (if negb (preview_only a)
                  then open_file HBackup backup_file ;;; ret true
                  else ret false) ;;
    counts <- with_open HLog log_file (process_loop a posts (O, O)) ;;
    (if backup_fh : bool then close_file HBackup else ret tt) ;;;
    ret (mk_result (tqdm_n page_bar * 50) total (fst counts) (snd counts)).

(** Lines 53-130, then the rest of the function. *)
Definition process_posts (a : Args) : M RunResult :=
  login (handle a) (token a) ;;;
  now <- get_now ;;
  c <- lift (criteria_of a now) ;;
  budget <- page_budget ;;
  r <- fetch_all budget c (handle a) None [] (tqdm_new (quiet a)) ;;
  let '(posts, page_bar) := r in
  process_matched a posts page_bar.

(** ** [cli] *)

(** Lines 209-257; the result is the exit status. *)
Definition cli (env : CliEnv) (handle : string) (token : option string)
    (days : Z) (preview : bool) (log_file : option string)
    (match_ : list string) (regex_ : bool) (after before : option string)
    (backup_file : option string) (include_replies include_reposts : bool)
    (verbose quiet : bool) : M Z :=
  token <- resolve_token env token ;;
  result <- process_posts
              (mk_args handle token days preview log_file match_ regex_
                 after before backup_file include_replies include_reposts quiet) ;;
  ret (if (0 <? failed result)%nat then 1 else 0).

End Pipeline.

Arguments mk_criteria {P} _ _ _ _ _ _.
Arguments cutoff {P} c.
Arguments after_dt {P} c.
Arguments before_dt {P} c.
Arguments compiled_patterns {P} c.
Arguments includeReplies {P} c.
Arguments includeReposts {P} c.

(** ** A concrete platform, for running the model

    Dates are recognised from a small table, patterns are literal, letters
    are lowered in ASCII, and the system time zone is UTC+02:00. *)
Module Demo.

Definition ascii_lower (c : ascii) : ascii :=
  let k := nat_of_ascii c in
  if ((65 <=? k) && (k <=? 90))%nat then ascii_of_nat (k + 32) else c.

Fixpoint lower (s : string) : string :=
  match s with
  | EmptyString => EmptyString
  | String c s' => String (ascii_lower c) (lower s')
  end.

Definition HOUR : Z := 3600 * 1000000.

(* 2024-01-01T12:00:00 and 2023-06-01T08:00:00 as wall clocks *)
Definition NOON_2024_01_01 : Z := 63839707200000000.
Definition MORNING_2023_06_01 : Z := 63821203200000000.
(* 2024-03-01T00:00:00, the run's clock *)
Definition NOW : Z := 63844848000000000.

Definition parse_table (s : string) : Result datetime :=
  if String.eqb s "2024-01-01T12:00:00" then Ok (mk_datetime NOON_2024_01_01 None)
  else if String.eqb s "2024-01-01T12:00:00Z" then Ok (mk_datetime NOON_2024_01_01 (Some 0))
  else if String.eqb s "2024-01-01T12:00:00+02:00"
       then Ok (mk_datetime NOON_2024_01_01 (Some (2 * HOUR)))
  else if String.eqb s "2023-06-01T08:00:00Z" then Ok (mk_datetime MORNING_2023_06_01 (Some 0))
  else Raise ValueError.

Definition platform : Platform :=
  mk_platform string
    (fun p => if String.eqb p "(" then Raise ReError else Ok p)
    (fun p text => str_in (lower p) (lower text))
    lower parse_table parse_table
    (fun _ => 2 * HOUR).

Definition old_post : PostView :=
  mk_post "at://did:plc:me/app.bsky.feed.post/3kabc" "2023-06-01T08:00:00Z"
    (Some "Foobar") None None.

Definition older_post : PostView :=
  mk_post "at://did:plc:me/app.bsky.feed.post/3kxyz" "2023-06-01T08:00:00Z"
    (Some "second") None None.

Definition one_page (ps : list PostView) : Result FeedResponse :=
  Ok (mk_feed (map mk_item ps) None).

Definition args (preview quiet_ : bool) : Args :=
  mk_args "me.bsky.social" "app-password" 30 preview None [] false None None None
    false false quiet_.

Definition world (feeds : list (Result FeedResponse)) (deletes : list (Result unit))
    (fs : list bool) : World :=
  mk_world NOW true feeds deletes fs [].

Definition two_posts : Result FeedResponse := one_page [old_post; older_post].

(* the first delete succeeds, the second fails three times *)
Definition world_one_failure : World :=
  world [two_posts]
    [Ok tt; Raise NetworkError; Raise NetworkError; Raise NetworkError] [].

Definition world_preview : World := world [two_posts] [] [].

(* the backup file opens, the log file does not *)
Definition world_log_open_fails : World := world [one_page [old_post]] [] [true; false].

(* both files open, the first log write raises *)
Definition world_log_write_fails : World :=
  world [one_page [old_post]] [] [true; true; false].

Definition naive_noon : datetime := mk_datetime NOON_2024_01_01 None.

Definition embed_declares_repost : embed_value :=
  EmbedObject {[ "$type" := PyStr REPOST_VIEW; "type" := PyStr "other" ]}.
Definition embed_bare_repost : embed_value :=
  EmbedObject {[ "$type" := PyStr REPOST_VIEW ]}.
Definition embed_images : embed_value :=
  EmbedObject {[ "$type" := PyStr "app.bsky.embed.images#view";
                 "type" := PyStr REPOST_VIEW ]}.

Definition env_with_token : CliEnv := mk_clienv {[ "BYESKY_TOKEN" := "env-pw" ]} "".

Definition demo_criteria : Criteria platform :=
  mk_criteria (utc_datetime (NOW - 30 * MICROS_PER_DAY)) None None
    (Substrings ["foo"]) false false.

Definition old_item : FeedViewPost := mk_item old_post.
Definition old_pt0 : datetime := mk_datetime MORNING_2023_06_01 (Some 0).

(* a post of 2024-01-01 whose embed has a "$type" and no "type" attribute *)
Definition new_year_item : FeedViewPost :=
  mk_item (mk_post "at://did:plc:me/app.bsky.feed.post/3knew" "2024-01-01T12:00:00Z"
             (Some "happy new year") None (Some embed_bare_repost)).

(* the same embed on a post of 2023-06-01 *)
Definition old_bare_item : FeedViewPost :=
  mk_item (mk_post "at://did:plc:me/app.bsky.feed.post/3kbare" "2023-06-01T08:00:00Z"
             (Some "quoted") None (Some embed_bare_repost)).

(* an item whose timestamp does not parse *)
Definition undated_item : FeedViewPost :=
  mk_item (mk_post "at://did:plc:me/app.bsky.feed.post/3kbad" "yesterday"
             (Some "when") None None).

(* a cutoff on 2023-06-01T08:00:00Z *)
Definition early_criteria : Criteria platform :=
  mk_criteria (utc_datetime MORNING_2023_06_01) None None (Substrings []) false false.

(* what [args] make of the filters at [NOW] *)
Definition args_criteria : Criteria platform :=
  mk_criteria (utc_datetime (NOW - 30 * MICROS_PER_DAY)) None None
    (Substrings []) false false.

Definition noon_plus_two : datetime := mk_datetime NOON_2024_01_01 (Some (2 * HOUR)).

Definition first_page : FeedResponse := mk_feed [old_item] (Some "cursor-1").
Definition last_page : FeedResponse := mk_feed [mk_item older_post] None.

(* two pages, then an answer the loop must not consume *)
Definition world_two_pages : World :=
  world (map Ok ([first_page] ++ [last_page]) ++ [Raise NetworkError]) [] [].

(* the service never answers *)
Definition world_unreachable : World := world [] [] [].

(* one page without posts *)
Definition world_empty_feed : World := world [one_page []] [] [].

Definition args_bad_after : Args :=
  mk_args "me.bsky.social" "app-password" 30 true None [] false (Some "soon") None None
    false false false.

(* a post of 2023-06-01 whose embed declares the repost view in "$type" and
   holds another value in "type" *)
Definition declared_repost_item : FeedViewPost :=
  mk_item (mk_post "at://did:plc:me/app.bsky.feed.post/3krep" "2023-06-01T08:00:00Z"
             (Some "look at this") None (Some embed_declares_repost)).

(* a post of the same date whose embed declares an image view in "$type" and
   holds the repost view in "type" *)
Definition declared_images_item : FeedViewPost :=
  mk_item (mk_post "at://did:plc:me/app.bsky.feed.post/3kimg" "2023-06-01T08:00:00Z"
             (Some "my photos") None (Some embed_images)).

Definition world_declared_repost : World :=
  world [Ok (mk_feed [declared_repost_item] None)] [Ok tt] [].


End Demo.

(** ** Words of the specification, to compare the code with *)

(** A pattern matches a text: regular-expression search when [use_regex],
    otherwise the lowered pattern occurs inside the lowered text. *)
Definition pattern_matches_spec (P : Platform) (use_regex : bool)
    (p text : string) : Prop :=
  if use_regex
  then exists rx, re_compile P p = Ok rx /\ re_search P rx text = true
  else exists pre suf, str_lower P text = pre +:+ str_lower P p +:+ suf.

(** The posts of a page that the filter keeps, in feed order. *)
Definition select (P : Platform) (c : Criteria P) (items : list FeedViewPost)
  : list Matched :=
  omap (fun item => match scan_item P c item with
                    | Ok (Some m) => Some m
                    | _ => None
                    end) items.

(** All matched posts of the pages received, in service-return order. *)
Definition selected (P : Platform) (c : Criteria P) (pages : list FeedResponse)
  : list Matched :=
  concat (map (fun fd => select P c (feed fd)) pages).

(** ** Reading a trace *)

Definition is_fetch_event (e : Event) : bool :=
  match e with
  | EvFetchFeedPage _ _ _ | EvGetAuthorFeed _ _ _ _ => true
  | _ => false
  end.

(** Opening, writing or closing the backup file, and every delete call. *)
Definition is_backup_or_delete (e : Event) : bool :=
  match e with
  | EvOpen HBackup _ | EvClose HBackup | EvWriteBackup _
  | EvDeleteRecord _ _ | EvRepoDeleteRecord _ _ _ _ => true
  | _ => false
  end.

(** A log write, a backup write or a delete call. *)
Definition is_output_event (e : Event) : bool :=
  match e with
  | EvWriteLog _ _ | EvWriteBackup _
  | EvDeleteRecord _ _ | EvRepoDeleteRecord _ _ _ _ => true
  | _ => false
  end.

Definition is_open_close (e : Event) : bool :=
  match e with
  | EvOpen _ _ | EvClose _ => true
  | _ => false
  end.

Definition pages_of (evs : list Event) : list FeedResponse :=
  omap (fun e => match e with
                 | EvGetAuthorFeed _ _ _ (Ok fd) => Some fd
                 | _ => None
                 end) evs.

Definition fetch_calls (evs : list Event) : nat :=
  length (omap (fun e => match e with
                         | EvFetchFeedPage _ _ _ => Some tt
                         | _ => None
                         end) evs).

Definition log_writes (evs : list Event) : list (datetime * string) :=
  omap (fun e => match e with
                 | EvWriteLog pt text => Some (pt, text)
                 | _ => None
                 end) evs.

Definition backup_writes (evs : list Event) : list BackupEntry :=
  omap (fun e => match e with
                 | EvWriteBackup entry => Some entry
                 | _ => None
                 end) evs.

Definition delete_calls (evs : list Event) : list string :=
  omap (fun e => match e with
                 | EvDeleteRecord _ u => Some u
                 | _ => None
                 end) evs.

Definition deletes_ok (evs : list Event) : nat :=
  length (omap (fun e => match e with
                         | EvRepoDeleteRecord _ _ _ (Ok _) => Some tt
                         | _ => None
                         end) evs).

Definition m_uri (m : Matched) : string := fst (fst m).
Definition m_post (m : Matched) : PostView := snd (fst m).
Definition m_pt (m : Matched) : datetime := snd m.

Definition log_line (m : Matched) : datetime * string :=
  (m_pt m, replace_newlines (default "" (record_text (m_post m)))).

Definition backup_entry (m : Matched) : BackupEntry :=
  mk_entry (m_uri m) (m_pt m) (m_post m).

Definition ev_log (m : Matched) : Event :=
  EvWriteLog (fst (log_line m)) (snd (log_line m)).
Definition ev_backup (m : Matched) : Event := EvWriteBackup (backup_entry m).
Definition ev_delete (a : Args) (m : Matched) : Event :=
  EvDeleteRecord (handle a) (m_uri m).
Definition ev_attempts (a : Args) (m : Matched) (answers : list (Result unit))
  : list Event :=
  map (EvRepoDeleteRecord (handle a) "app.bsky.feed.post" (last_segment (m_uri m)))
      answers.



(** ** The shape of the processing phase, as a relation on traces *)

(** The answers one retried call can see: a success on one of three attempts,
    or three failures. *)
Inductive retry_run : list (Result unit) -> bool -> Prop :=
| retry_first : retry_run [Ok tt] true
| retry_second e1 : retry_run [Raise e1; Ok tt] true
| retry_third e1 e2 : retry_run [Raise e1; Raise e2; Ok tt] true
| retry_exhausted e1 e2 e3 : retry_run [Raise e1; Raise e2; Raise e3] false.

(** The events of one loop iteration, with the increments of [deleted] and
    [failed] when the iteration completes and [None] when it raises. *)
Inductive post_block (a : Args) (m : Matched)
  : list Event -> option (nat * nat) -> Prop :=
| block_log_raises :
    post_block a m [ev_log m] None
| block_previewed :
    preview_only a = true ->
    post_block a m [ev_log m] (Some (O, O))
| block_backup_raises :
    preview_only a = false ->
    post_block a m [ev_log m; ev_backup m] None
| block_deleted answers :
    preview_only a = false ->
    retry_run answers true ->
    post_block a m ([ev_log m; ev_backup m; ev_delete a m] ++ ev_attempts a m answers)
      (Some (1%nat, O))
| block_failed answers :
    preview_only a = false ->
    retry_run answers false ->
    post_block a m ([ev_log m; ev_backup m; ev_delete a m] ++ ev_attempts a m answers)
      (Some (O, 1%nat)).

(** The events of the loop over [posts], and the counters when the loop
    completes. *)
Inductive loop_trace (a : Args)
  : list Matched -> list Event -> option (nat * nat) -> Prop :=
| loop_done :
    loop_trace a [] [] (Some (O, O))
| loop_raises m rest evs :
    post_block a m evs None ->
    loop_trace a (m :: rest) evs None
| loop_next m rest evs d f evs' res :
    post_block a m evs (Some (d, f)) ->
    loop_trace a rest evs' res ->
    loop_trace a (m :: rest) (evs ++ evs')
      (option_map (fun df => (d + fst df, f + snd df)%nat) res).

(** ** The shape of a whole run *)

(** The trace of [process_posts] is the login, the pagination events
    [fetch_evs], file openings [pre], the loop over [posts] and file closings
    [post].  On a path that never reaches the loop, [posts] is empty. *)
Record run_shape (P : Platform) (a : Args) (w : World) (r : Run RunResult)
    (fetch_evs pre loop_evs post : list Event) (posts : list Matched)
    (res : option (nat * nat)) : Prop := mk_shape {
  shape_events :
    events r = EvLogin (handle a) (token a) :: fetch_evs ++ pre ++ loop_evs ++ post;
  shape_fetch : forallb is_fetch_event fetch_evs = true;
  shape_pre : forallb is_open_close pre = true;
  shape_post : forallb is_open_close post = true;
  shape_preview :
    preview_only a = true ->
    forallb (fun e => negb (is_backup_or_delete e)) (pre ++ post) = true;
  shape_loop : loop_trace a posts loop_evs res;
  shape_posts :
    posts = [] \/
    exists c, criteria_of P a (now_utc w) = Ok c
              /\ posts = selected P c (pages_of fetch_evs);
  shape_result :
    forall rr, outcome r = Ok rr ->
      res = Some (deleted rr, failed rr)
      /\ matched rr = length posts
      /\ scanned rr = ((if quiet a then 0 else fetch_calls fetch_evs) * 50)%nat
      /\ (exists c, criteria_of P a (now_utc w) = Ok c
                    /\ posts = selected P c (pages_of fetch_evs))
      /\ open_handles (final r) = open_handles w
}.

(** ** More readers, for the properties beyond the claims *)

Fixpoint str_contains_char (c : ascii) (s : string) : bool :=
  match s with
  | EmptyString => false
  | String x s' => Ascii.eqb x c || str_contains_char c s'
  end.

Definition is_raise {A} (r : Result A) : bool :=
  match r with Raise _ => true | Ok _ => false end.

(** The cursors of the [fetch_feed_page] calls, in order. *)
Definition fetch_cursors (evs : list Event) : list (option string) :=
  omap (fun e => match e with
                 | EvFetchFeedPage _ c _ => Some c
                 | _ => None
                 end) evs.

(** The answers to the [get_author_feed] attempts, in order. *)
Definition feed_answers (evs : list Event) : list (Result FeedResponse) :=
  omap (fun e => match e with
                 | EvGetAuthorFeed _ _ _ ans => Some ans
                 | _ => None
                 end) evs.

(** The answers to the [repo.delete_record] attempts, in order. *)
Definition delete_answers (evs : list Event) : list (Result unit) :=
  omap (fun e => match e with
                 | EvRepoDeleteRecord _ _ _ ans => Some ans
                 | _ => None
                 end) evs.

(** The record keys of the [repo.delete_record] attempts, in order. *)
Definition delete_rkeys (evs : list Event) : list string :=
  omap (fun e => match e with
                 | EvRepoDeleteRecord _ _ rkey _ => Some rkey
                 | _ => None
                 end) evs.


(** The files opened, in order. *)
Definition opened_files (evs : list Event) : list (Handle * string) :=
  omap (fun e => match e with
                 | EvOpen h p => Some (h, p)
                 | _ => None
                 end) evs.

(** The texts written to the log file. *)
Definition log_texts (evs : list Event) : list string :=
  map snd (log_writes evs).

(** Lines 138-139 and 143-144: the paths [process_posts] settles on. *)
Definition log_path (a : Args) : string :=
  if str_truthy (log_file a) then default "" (log_file a)
  else if preview_only a then "preview_log.txt" else "deleted_posts_log.txt".

Definition backup_path (a : Args) : string :=
  if str_truthy (backup_file a) then default "" (backup_file a)
  else "deleted_posts_backup.jsonl".

(** Line 253: the log file name [cli] prints in its summary. *)
Definition summary_log_file (log_file : option string) (preview : bool) : string :=
  if str_truthy log_file then default "" log_file
  else if preview then "preview_log.txt" else "deleted_posts_log.txt".

(** Each network call and file opening is made with the arguments of the
    run: the user's handle, page size 50, the posts collection, the two
    paths. *)
Definition well_targeted (a : Args) (e : Event) : Prop :=
  match e with
  | EvLogin h t => h = handle a /\ t = token a
  | EvFetchFeedPage actor _ limit => actor = handle a /\ limit = 50
  | EvGetAuthorFeed actor _ limit _ => actor = handle a /\ limit = 50
  | EvOpen HLog p => p = log_path a
  | EvOpen HBackup p => p = backup_path a /\ preview_only a = false
  | EvDeleteRecord h _ => h = handle a
  | EvRepoDeleteRecord repo collection _ _ =>
      repo = handle a /\ collection = "app.bsky.feed.post"
  | _ => True
  end.

(** What an unreachable service answers to the three attempts of a call. *)
Definition three_failures {A} : list (Result A) :=
  [Raise NetworkError; Raise NetworkError; Raise NetworkError].

(** Every file operation still to come succeeds. *)
Definition fs_healthy (w : World) : Prop := Forall (fun ok => ok = true) (fs_script w).

(** A property of every event a computation can emit, from any world. *)
Definition always {A} (Q : Event -> Prop) (m : M A) : Prop :=
  forall w, Forall Q (events (m w)).

(** * Properties of the pure code *)

Section PureFacts.

Variable P : Platform.

Lemma str_prefixb_spec (a b : string) :
  str_prefixb a b = true <-> exists suf, b = a +:+ suf.
Proof.
  revert b. induction a as [|x a IH]; intros b; simpl.
  - split; [intros _; by exists b | done].
  - destruct b as [|y b]; simpl.
    + split; [done | intros [suf H]; discriminate].
    + rewrite andb_true_iff, IH. split.
      * intros [Hxy [suf ->]]. apply Ascii.eqb_eq in Hxy as ->. by exists suf.
      * intros [suf H]. injection H as -> ->. split; [apply Ascii.eqb_refl | by exists suf].
Qed.

(** Python's [a in b] is the usual substring relation. *)
Lemma str_in_spec (a b : string) :
  str_in a b = true <-> exists pre suf, b = pre +:+ a +:+ suf.
Proof.
  induction b as [|y b IH]; simpl.
  - rewrite orb_false_r, str_prefixb_spec. split.
    + intros [suf H]. by exists EmptyString, suf.
    + intros [pre [suf H]]. destruct pre; simpl in H; [by exists suf | discriminate].
  - rewrite orb_true_iff, str_prefixb_spec, IH. split.
    + intros [[suf H] | [pre [suf H]]].
      * by exists EmptyString, suf.
      * exists (String y pre), suf. simpl. by rewrite H.
    + intros [pre [suf H]]. destruct pre as [|z pre]; simpl in H.
      * left. by exists suf.
      * right. injection H as _ ->. by exists pre, suf.
Qed.

Lemma rmap_list_Ok {A B} (f : A -> Result B) (l : list A) (l' : list B) :
  rmap_list f l = Ok l' -> Forall2 (fun x y => f x = Ok y) l l'.
Proof.
  revert l'. induction l as [|x l IH]; intros l' H; simpl in H.
  - injection H as <-. constructor.
  - destruct (f x) as [y|] eqn:Hx; simpl in H; [|discriminate].
    destruct (rmap_list f l) as [ys|] eqn:Hl; simpl in H; [|discriminate].
    injection H as <-. constructor; [done | by apply IH].
Qed.

Lemma regexes_search_spec (pats : list string) (l : list (regex P)) (text : string) :
  Forall2 (fun p rx => re_compile P p = Ok rx) pats l ->
  existsb (fun rx => re_search P rx text) l = true <->
  exists p, In p pats /\ pattern_matches_spec P true p text.
Proof.
  induction 1 as [|p rx pats l Hp _ IH]; simpl.
  - split; [done | intros [p [[] _]]].
  - rewrite orb_true_iff, IH. split.
    + intros [Hs | [q [Hq Hm]]].
      * exists p. split; [by left | by exists rx].
      * exists q. split; [by right | done].
    + intros [q [[<- | Hq] Hm]].
      * left. destruct Hm as [rx' [Hc Hs]]. simpl in Hc. congruence.
      * right. by exists q.
Qed.

Lemma substrings_spec (pats : list string) (text : string) :
  existsb (fun p => str_in (str_lower P p) (str_lower P text)) pats = true <->
  exists p, In p pats /\ pattern_matches_spec P false p text.
Proof.
  rewrite existsb_exists. unfold pattern_matches_spec.
  split; intros [p [Hin H]]; exists p; (split; [done|]); by apply str_in_spec.
Qed.

(** Lines 119-124 against the specification's pattern step. *)
Lemma patterns_match_spec (pats : list string) (use_rx : bool)
    (m : Matchers (regex P)) (text : string) :
  prepare_matchers P pats use_rx = Ok m ->
  patterns_match P m text = true <->
  pats = [] \/ exists p, In p pats /\ pattern_matches_spec P use_rx p text.
Proof.
  unfold prepare_matchers. destruct pats as [|p0 pats].
  - intros [= <-]. simpl. split; [by left | done].
  - destruct use_rx.
    + destruct (rmap_list (re_compile P) (p0 :: pats)) as [l|] eqn:Hl; simpl; [|done].
      intros [= <-]. apply rmap_list_Ok in Hl.
      assert (matchers_empty (Regexes l) = false) as He
        by (inversion Hl; subst; done).
      unfold patterns_match. rewrite He, (regexes_search_spec _ _ _ Hl).
      split; [by right | by intros [? | ?]].
    + intros [= <-]. unfold patterns_match. simpl matchers_empty. cbv iota.
      rewrite substrings_spec. split; [by right | by intros [? | ?]].
Qed.

Lemma in_range_of_spec (c : Criteria P) (pt : datetime) :
  in_range_of P c pt = true <->
  (forall a, after_dt c = Some a -> instant a <= instant pt) /\
  (forall b, before_dt c = Some b -> instant pt <= instant b).
Proof.
  unfold in_range_of, dt_ltb, dt_gtb.
  destruct (after_dt c) as [a|], (before_dt c) as [b|];
    repeat case_match; split; try done;
    try (intros _; split; intros ? [= <-]; lia);
    try (intros _; split; intros ? [=]; lia);
    try (intros [Ha Hb]; specialize (Ha _ eq_refl); lia);
    try (intros [Ha Hb]; specialize (Hb _ eq_refl); lia).
Qed.

(** The normalised timestamp always carries UTC. *)
Lemma normalize_indexed_at_utc (pt : datetime) :
  tzinfo (normalize_indexed_at P pt) = Some 0.
Proof.
  unfold normalize_indexed_at, astimezone_utc.
  by destruct (dt_in_range _).
Qed.

(** An offset-aware timestamp is converted to UTC. *)
Lemma normalize_aware (pt : datetime) (off : Z) :
  tzinfo pt = Some off ->
  dt_in_range (wall pt - off) = true ->
  normalize_indexed_at P pt = utc_datetime (wall pt - off).
Proof.
  intros Ht Hr. unfold normalize_indexed_at, astimezone_utc. by rewrite Ht, Hr.
Qed.

(** An offset-naive timestamp is read in the system time zone. *)
Lemma normalize_naive (pt : datetime) :
  tzinfo pt = None ->
  dt_in_range (wall pt - local_utcoffset P (wall pt)) = true ->
  normalize_indexed_at P pt = utc_datetime (wall pt - local_utcoffset P (wall pt)).
Proof.
  intros Ht Hr. unfold normalize_indexed_at, astimezone_utc. by rewrite Ht, Hr.
Qed.

(** The mapping-style branch reads the key it tests. *)
Lemma is_repost_of_dict (d : gmap string pyval) :
  is_repost_of (Some (EmbedDict d)) = Ok true <->
  d !! "$type" = Some (PyStr REPOST_VIEW).
Proof.
  unfold is_repost_of. simpl. case_bool_decide as Hd; simpl.
  - subst d. rewrite lookup_empty. split; done.
  - destruct (d !! "$type") as [[ | s | z]|]; simpl; split; try done.
    + intros [= H]. apply String.eqb_eq in H. by subst.
    + intros [= ->]. by rewrite String.eqb_refl.
Qed.

Lemma scan_feed_collects (c : Criteria P) (items : list FeedViewPost)
    (posts posts' : list Matched) :
  scan_feed P c items posts = Ok posts' -> posts' = posts ++ select P c items.
Proof.
  revert posts. induction items as [|item items IH]; intros posts H; simpl in H.
  - injection H as <-. by rewrite app_nil_r.
  - unfold select. simpl.
    destruct (scan_item P c item) as [[m|]|] eqn:Hi; simpl in H; [| |done].
    + apply IH in H. by rewrite H, <- app_assoc.
    + by apply IH in H.
Qed.

Lemma elem_of_select (c : Criteria P) (items : list FeedViewPost) (m : Matched) :
  In m (select P c items) <->
  exists item, In item items /\ scan_item P c item = Ok (Some m).
Proof.
  unfold select. rewrite <- list_elem_of_In, list_elem_of_omap.
  split; intros [item [Hin H]]; exists item.
  - apply list_elem_of_In in Hin. split; [done|].
    destruct (scan_item P c item) as [[m'|]|]; congruence.
  - apply list_elem_of_In in Hin. split; [done|]. by rewrite H.
Qed.

(** The loop body in terms of the two flags it computes: a post is appended
    exactly when its normalised [indexed_at] is strictly before the cutoff,
    neither flag excludes it, it lies within the inclusive [after]/[before]
    bounds that are set, and the pattern list is empty or some pattern
    matches its text. *)
Lemma scan_item_matched_iff (c : Criteria P) (pats : list string) (use_rx : bool)
    (item : FeedViewPost) (pt0 : datetime) (rp : bool) :
  prepare_matchers P pats use_rx = Ok (compiled_patterns c) ->
  isoparse P (indexed_at (post item)) = Ok pt0 ->
  is_repost_of (embed (post item)) = Ok rp ->
  let pt := normalize_indexed_at P pt0 in
  let text := default "" (record_text (post item)) in
  scan_item P c item = Ok (Some (uri (post item), post item, pt)) <->
    instant pt < instant (cutoff c)
    /\ (includeReplies c = false -> is_reply_of (post item) = false)
    /\ (includeReposts c = false -> rp = false)
    /\ (forall a, after_dt c = Some a -> instant a <= instant pt)
    /\ (forall b, before_dt c = Some b -> instant pt <= instant b)
    /\ (pats = [] \/ exists p, In p pats /\ pattern_matches_spec P use_rx p text).
Proof.
  intros Hm Hp Hr pt text. unfold scan_item. rewrite Hp. simpl. fold pt.
  rewrite Hr. simpl. fold text.
  pose proof (patterns_match_spec _ _ _ text Hm) as HP.
  pose proof (in_range_of_spec c pt) as HR.
  unfold dt_ltb. destruct (Z.ltb_spec (instant pt) (instant (cutoff c))) as [Hlt|Hge].
  - destruct (is_reply_of (post item)), (includeReplies c), rp, (includeReposts c);
      simpl;
      destruct (in_range_of P c pt), (patterns_match P (compiled_patterns c) text);
      simpl; split;
      try (intros Heq; discriminate Heq);
      try (intros _; destruct HR as [[HR1 HR2] _]; [done|];
           destruct HP as [HP _]; repeat split; try done; by apply HP);
      intros (_ & H1 & H2 & H3 & H4 & H5); try reflexivity; exfalso;
      try discriminate (H1 eq_refl); try discriminate (H2 eq_refl);
      try (destruct HR as [_ HR]; discriminate (HR (conj H3 H4)));
      try (destruct HP as [_ HP]; discriminate (HP H5)).
  - split; [done | intros [H _]; lia].
Qed.

(** Where the classification reads the key it tests (no embed, or a
    mapping-style embed), the filter is the one the specification words: a
    post is matched exactly when it is older than the cutoff, carries no reply
    reference unless replies are included, does not declare the repost view
    type unless reposts are included, lies within the bounds and passes the
    pattern step. *)
Lemma matched_iff_without_object_embed (c : Criteria P) (pats : list string)
    (use_rx : bool) (item : FeedViewPost) (pt0 : datetime) :
  prepare_matchers P pats use_rx = Ok (compiled_patterns c) ->
  isoparse P (indexed_at (post item)) = Ok pt0 ->
  (embed (post item) = None \/ exists d, embed (post item) = Some (EmbedDict d)) ->
  let pt := normalize_indexed_at P pt0 in
  let text := default "" (record_text (post item)) in
  scan_item P c item = Ok (Some (uri (post item), post item, pt)) <->
    instant pt < instant (cutoff c)
    /\ (includeReplies c = false -> reply (post item) = None)
    /\ (includeReposts c = false ->
        declared_type (embed (post item)) <> Some (PyStr REPOST_VIEW))
    /\ (forall a, after_dt c = Some a -> instant a <= instant pt)
    /\ (forall b, before_dt c = Some b -> instant pt <= instant b)
    /\ (pats = [] \/ exists p, In p pats /\ pattern_matches_spec P use_rx p text).
Proof.
  intros Hm Hp He pt text.
  assert (exists rp, is_repost_of (embed (post item)) = Ok rp
                     /\ (rp = false <->
                         declared_type (embed (post item)) <> Some (PyStr REPOST_VIEW)))
    as (rp & Hr & Hrp).
  { destruct He as [-> | [d ->]].
    - exists false. split; [done|]. split; [done | by intros _].
    - pose proof (is_repost_of_dict d) as Hd. simpl declared_type.
      destruct (is_repost_of (Some (EmbedDict d))) as [[]|e] eqn:Hr.
      + exists true. split; [done|]. split; [done|].
        intros Hne. destruct Hne. by apply Hd.
      + exists false. split; [done|]. split; [|done].
        intros _ Hdecl. apply Hd in Hdecl. discriminate.
      + exfalso. unfold is_repost_of in Hr. simpl in Hr. by destruct (negb _). }
  pose proof (scan_item_matched_iff c pats use_rx item pt0 rp Hm Hp Hr) as Hiff.
  cbv zeta in Hiff. subst pt text. rewrite Hiff. clear Hiff Hr.
  assert (is_reply_of (post item) = false <-> reply (post item) = None) as Hreply.
  { unfold is_reply_of. by destruct (reply (post item)). }
  split; intros (H1 & H2 & H3 & H4); (split; [done|]); split.
  - intros Hi. by apply Hreply, H2.
  - split; [|done]. intros Hi. by apply Hrp, H3.
  - intros Hi. by apply Hreply, H2.
  - split; [|done]. intros Hi. by apply Hrp, H3.
Qed.

End PureFacts.

(** * Properties of the code with effects *)

Section EffectFacts.

Variable P : Platform.

Local Open Scope pipeline_scope.

Local Ltac pick_retry :=
  solve [ eexists _, _; (split; [apply retry_first|]); simpl; eauto
        | eexists _, _; (split; [apply retry_second|]); simpl; eauto
        | eexists _, _; (split; [apply retry_third|]); simpl; eauto
        | eexists _, _; (split; [apply retry_exhausted|]); simpl; eauto ].

(** One retried delete call: the call event, then one to three attempts. *)
Lemma delete_record_spec (a : Args) (m : Matched) (w : World) :
  let r := delete_record (handle a) (m_uri m) w in
  exists answers ok,
    retry_run answers ok
    /\ events r = ev_delete a m :: ev_attempts a m answers
    /\ open_handles (final r) = open_handles w
    /\ (if ok : bool then outcome r = Ok tt else exists e, outcome r = Raise e).
Proof.
  unfold delete_record, retry_on_network, try_except, bind, emit,
    repo_delete_record, ev_delete, ev_attempts.
  simpl.
  destruct (delete_script w) as [|[[]|e1] [|[[]|e2] [|[[]|e3] s3]]] eqn:Hs;
    simpl; rewrite ?Hs; simpl; rewrite ?Hs; simpl; pick_retry.
Qed.

(** Lines 170-175: the delete call and the two counters. *)
Lemma delete_step_spec (a : Args) (m : Matched) (d f : nat) (w : World) :
  preview_only a = false ->
  let r := try_except
             (delete_record (handle a) (m_uri m) ;;; ret (S d, f))
             (fun _ => ret (d, S f)) w in
  exists res,
    post_block a m ([ev_log m; ev_backup m] ++ events r) res
    /\ open_handles (final r) = open_handles w
    /\ match res with
       | Some (d', f') => outcome r = Ok (d' + d, f' + f)%nat
       | None => exists e, outcome r = Raise e
       end.
Proof.
  intros Hprev. unfold try_except, bind, ret.
  destruct (delete_record_spec a m w) as (answers & ok & Hrr & Hev & Hh & Hout).
  destruct (delete_record (handle a) (m_uri m) w) as [o wf evs].
  simpl in *. subst evs. destruct ok.
  - subst o. simpl. exists (Some (1%nat, O)). rewrite app_nil_r.
    split; [by apply block_deleted | done].
  - destruct Hout as [e ->]. simpl. exists (Some (O, 1%nat)). rewrite app_nil_r.
    split; [by apply block_failed | done].
Qed.

(** One loop iteration produces one block. *)
Lemma process_one_spec (a : Args) (m : Matched) (counts : nat * nat) (w : World) :
  let r := process_one a m counts w in
  exists res,
    post_block a m (events r) res
    /\ open_handles (final r) = open_handles w
    /\ match res with
       | Some (d, f) => outcome r = Ok (d + fst counts, f + snd counts)%nat
       | None => exists e, outcome r = Raise e
       end.
Proof.
  destruct m as [[u p] pt], counts as [d f]. unfold process_one.
  destruct (preview_only a) eqn:Hprev; simpl negb; cbv iota.
  - unfold write_log, fs_op, bind, emit. simpl.
    destruct (fs_script w) as [|[] s]; simpl.
    + exists (Some (O, O)). split; [by apply block_previewed | done].
    + exists (Some (O, O)). split; [by apply block_previewed | done].
    + exists None. split; [apply block_log_raises | eauto].
  - pose proof (fun w' => delete_step_spec a (u, p, pt) d f w' Hprev) as Hdel.
    change (m_uri (u, p, pt)) with u in Hdel.
    set (del := try_except _ _) in *.
    unfold write_log, write_backup, fs_op, bind, emit. simpl.
    destruct (fs_script w) as [|[] [|[] s]] eqn:Hfs; simpl; rewrite ?Hfs; simpl;
      try (exists None; split;
           [first [apply block_log_raises | by apply block_backup_raises] | by eauto]);
      match goal with |- context [del ?w'] => exact (Hdel w') end.
Qed.

(** The loop produces a sequence of blocks and passes the counters on. *)
Lemma process_loop_spec (a : Args) (posts : list Matched) (counts : nat * nat)
    (w : World) :
  let r := process_loop a posts counts w in
  exists res,
    loop_trace a posts (events r) res
    /\ open_handles (final r) = open_handles w
    /\ match res with
       | Some (d, f) => outcome r = Ok (d + fst counts, f + snd counts)%nat
       | None => exists e, outcome r = Raise e
       end.
Proof.
  revert counts w. induction posts as [|m rest IH]; intros counts w; simpl.
  - exists (Some (O, O)). destruct counts. split; [constructor | done].
  - unfold bind.
    destruct (process_one_spec a m counts w) as (res1 & Hb & Hh & Hout).
    destruct (process_one a m counts w) as [o w1 evs1]. simpl in *.
    destruct res1 as [[d1 f1]|].
    + subst o. simpl.
      destruct (IH (d1 + fst counts, f1 + snd counts)%nat w1) as (res2 & Ht & Hh2 & Hout2).
      exists (option_map (fun df => (d1 + fst df, f1 + snd df)%nat) res2).
      split; [by eapply loop_next|]. split; [congruence|].
      destruct res2 as [[d2 f2]|]; simpl in *; [|done].
      rewrite Hout2. do 2 f_equal; lia.
    + destruct Hout as [e ->]. simpl. exists None.
      split; [by apply loop_raises | eauto].
Qed.

End EffectFacts.

(** * Properties of traces *)

Section TraceFacts.

Variable a : Args.

Lemma omap_attempts {B} (g : Event -> option B) (m : Matched)
    (answers : list (Result unit)) :
  (forall r c k ans, g (EvRepoDeleteRecord r c k ans) = None) ->
  omap g (ev_attempts a m answers) = [].
Proof.
  intros Hg. unfold ev_attempts.
  induction answers as [|x l IH]; simpl; [done|]. by rewrite Hg.
Qed.

Lemma deletes_ok_attempts (m : Matched) (answers : list (Result unit)) (ok : bool) :
  retry_run answers ok ->
  deletes_ok (ev_attempts a m answers) = if ok then 1%nat else O.
Proof. by destruct 1. Qed.

Lemma attempts_output (m : Matched) (answers : list (Result unit)) :
  forallb is_output_event (ev_attempts a m answers) = true.
Proof. unfold ev_attempts. by induction answers. Qed.

Lemma post_block_output (m : Matched) (evs : list Event) (res : option (nat * nat)) :
  post_block a m evs res -> forallb is_output_event evs = true.
Proof. destruct 1; simpl; try done; apply attempts_output. Qed.

(** The loop only writes the log, writes the backup and deletes. *)
Lemma loop_trace_output (posts : list Matched) (evs : list Event)
    (res : option (nat * nat)) :
  loop_trace a posts evs res -> forallb is_output_event evs = true.
Proof.
  induction 1 as [|m rest evs Hb|m rest evs d f evs' res Hb _ IH]; [done| |].
  - by eapply post_block_output.
  - rewrite forallb_app, IH. by erewrite post_block_output.
Qed.

Lemma post_block_preview (m : Matched) (evs : list Event) (res : option (nat * nat)) :
  preview_only a = true ->
  post_block a m evs res ->
  evs = [ev_log m] /\ (res = None \/ res = Some (O, O)).
Proof. intros Hp. destruct 1; try congruence; auto. Qed.

(** In preview mode the loop touches neither the backup file nor the
    service, and leaves both counters at zero. *)
Lemma loop_trace_preview (posts : list Matched) (evs : list Event)
    (res : option (nat * nat)) :
  preview_only a = true ->
  loop_trace a posts evs res ->
  forallb (fun e => negb (is_backup_or_delete e)) evs = true
  /\ (res = None \/ res = Some (O, O)).
Proof.
  intros Hp. induction 1 as [|m rest evs Hb|m rest evs d f evs' res Hb _ IH].
  - auto.
  - apply post_block_preview in Hb as [-> _]; auto.
  - apply post_block_preview in Hb as [-> [[=] | [= -> ->]]]; [|done].
    destruct IH as [IH [-> | ->]]; simpl; auto.
Qed.

Lemma post_block_projections (m : Matched) (evs : list Event) (d f : nat) :
  preview_only a = false ->
  post_block a m evs (Some (d, f)) ->
  log_writes evs = [log_line m]
  /\ backup_writes evs = [backup_entry m]
  /\ delete_calls evs = [m_uri m]
  /\ deletes_ok evs = d
  /\ (d + f = 1)%nat.
Proof.
  intros Hp Hb. inversion Hb as [|Hp'| |answers _ Hrr|answers _ Hrr]; subst;
    [congruence| |].
  all: unfold log_writes, backup_writes, delete_calls, deletes_ok.
  all: rewrite !omap_app, !(omap_attempts _ m answers) by done.
  all: pose proof (deletes_ok_attempts m answers _ Hrr) as Hok.
  all: unfold deletes_ok in Hok; rewrite length_app, Hok.
  all: by destruct m as [[u p] pt].
Qed.

(** A loop that completes outside preview mode has logged, backed up and
    tried to delete every post, in list order, and counted each once. *)
Lemma loop_trace_complete (posts : list Matched) (evs : list Event) (d f : nat) :
  preview_only a = false ->
  loop_trace a posts evs (Some (d, f)) ->
  log_writes evs = map log_line posts
  /\ backup_writes evs = map backup_entry posts
  /\ delete_calls evs = map m_uri posts
  /\ deletes_ok evs = d
  /\ (d + f = length posts)%nat.
Proof.
  intros Hp Ht. remember (Some (d, f)) as res eqn:Hres.
  revert d f Hres.
  induction Ht as [|m rest evs Hb|m rest evs d1 f1 evs' res Hb _ IH];
    intros d f Hres.
  - by injection Hres as <- <-.
  - discriminate.
  - destruct res as [[d2 f2]|]; [|discriminate].
    simpl in Hres. injection Hres as <- <-.
    destruct (IH d2 f2 eq_refl) as (H1 & H2 & H3 & H4 & H5).
    destruct (post_block_projections _ _ _ _ Hp Hb) as (B1 & B2 & B3 & B4 & B5).
    unfold log_writes, backup_writes, delete_calls, deletes_ok in *.
    rewrite !omap_app, length_app, H1, H2, H3, H4, B1, B2, B3, B4. simpl.
    repeat split; lia.
Qed.


Lemma post_block_prefix (m : Matched) (evs : list Event) (res : option (nat * nat)) :
  post_block a m evs res ->
  log_writes evs = [log_line m]
  /\ (backup_writes evs = [] \/ backup_writes evs = [backup_entry m])
  /\ (delete_calls evs = [] \/ delete_calls evs = [m_uri m]).
Proof.
  destruct 1; unfold log_writes, backup_writes, delete_calls;
    rewrite ?omap_app, ?omap_attempts by done; simpl; auto.
Qed.

(** Whatever way the loop ends, what it logged, backed up and tried to delete
    are prefixes of the post list, in list order. *)
Lemma loop_trace_prefix (posts : list Matched) (evs : list Event)
    (res : option (nat * nat)) :
  loop_trace a posts evs res ->
  exists k1 k2 k3,
    log_writes evs = map log_line (take k1 posts)
    /\ backup_writes evs = map backup_entry (take k2 posts)
    /\ delete_calls evs = map m_uri (take k3 posts).
Proof.
  induction 1 as [|m rest evs Hb|m rest evs d f evs' res Hb Ht IH].
  - by exists O, O, O.
  - destruct (post_block_prefix _ _ _ Hb) as (H1 & [H2|H2] & [H3|H3]);
      rewrite H1, H2, H3.
    + by exists 1%nat, O, O.
    + by exists 1%nat, O, 1%nat.
    + by exists 1%nat, 1%nat, O.
    + by exists 1%nat, 1%nat, 1%nat.
  - destruct IH as (k1 & k2 & k3 & H1 & H2 & H3).
    unfold log_writes, backup_writes, delete_calls in *.
    rewrite !omap_app, H1, H2, H3.
    destruct (preview_only a) eqn:Hp.
    + apply post_block_preview in Hb as [-> _]; [|done].
      apply (loop_trace_preview _ _ _ Hp) in Ht as [Hnb _].
      assert (omap (fun e => match e with EvWriteBackup entry => Some entry | _ => None end)
                evs' = []) as E2.
      { clear -Hnb. induction evs' as [|[] l IH]; simpl in *; try done;
          try (apply IH; by destruct_and?); by destruct h; apply IH. }
      assert (omap (fun e => match e with EvDeleteRecord _ u => Some u | _ => None end)
                evs' = []) as E3.
      { clear -Hnb. induction evs' as [|[] l IH]; simpl in *; try done;
          try (apply IH; by destruct_and?); by destruct h; apply IH. }
      rewrite <- H2, <- H3, E2, E3. by exists (S k1), O, O.
    + destruct (post_block_projections _ _ _ _ Hp Hb) as (B1 & B2 & B3 & _).
      unfold log_writes, backup_writes, delete_calls in *.
      rewrite B1, B2, B3. by exists (S k1), (S k2), (S k3).
Qed.

Lemma delete_calls_none (g : Event -> bool) (evs : list Event) :
  (forall h u, g (EvDeleteRecord h u) = false) ->
  forallb g evs = true -> delete_calls evs = [].
Proof.
  intros Hg. induction evs as [|e l IH]; simpl; [done|].
  intros [He Hl]%andb_true_iff. unfold delete_calls in *. simpl.
  rewrite (IH Hl). destruct e; try done. by rewrite Hg in He.
Qed.








End TraceFacts.

(** * Properties of the whole run *)

Section RunFacts.

Variable P : Platform.

Local Open Scope pipeline_scope.

(** One retried page fetch: one call event, fetch events only, and exactly
    the page returned among the answers received. *)
Lemma fetch_feed_page_spec (actor : string) (cur : option string) (limit : Z)
    (w : World) :
  let r := fetch_feed_page actor cur limit w in
  forallb is_fetch_event (events r) = true
  /\ fetch_calls (events r) = 1%nat
  /\ open_handles (final r) = open_handles w
  /\ match outcome r with
     | Ok fd => pages_of (events r) = [fd]
                /\ (length (feed_script (final r)) < length (feed_script w))%nat
     | Raise _ => pages_of (events r) = []
     end.
Proof.
  unfold fetch_feed_page, retry_on_network, try_except, bind, emit, get_author_feed.
  simpl.
  destruct (feed_script w) as [|[fd1|e1] [|[fd2|e2] [|[fd3|e3] s3]]] eqn:Hs;
    simpl; rewrite ?Hs; simpl; rewrite ?Hs; simpl; repeat split; lia.
Qed.

Lemma selected_app (c : Criteria P) (l1 l2 : list FeedResponse) :
  selected P c (l1 ++ l2) = selected P c l1 ++ selected P c l2.
Proof. unfold selected. by rewrite map_app, concat_app. Qed.

Lemma pages_of_app (l1 l2 : list Event) :
  pages_of (l1 ++ l2) = pages_of l1 ++ pages_of l2.
Proof. apply omap_app. Qed.

Lemma fetch_calls_app (l1 l2 : list Event) :
  fetch_calls (l1 ++ l2) = (fetch_calls l1 + fetch_calls l2)%nat.
Proof. unfold fetch_calls. by rewrite omap_app, length_app. Qed.

Lemma bind_unfold {A B} (m : M A) (k : A -> M B) (w : World) :
  bind m k w =
  match outcome (m w) with
  | Ok x => mk_run (outcome (k x (final (m w)))) (final (k x (final (m w))))
              (events (m w) ++ events (k x (final (m w))))
  | Raise e => mk_run (Raise e) (final (m w)) (events (m w))
  end.
Proof. reflexivity. Qed.

(** The pagination loop: fetch events only; on return the matched list has
    grown by the selected posts of the pages received, in order, and an
    enabled bar has counted the calls. *)
Lemma fetch_all_spec (budget : nat) (c : Criteria P) (actor : string)
    (cur : option string) (posts : list Matched) (bar : Tqdm) (w : World) :
  let r := fetch_all P budget c actor cur posts bar w in
  forallb is_fetch_event (events r) = true
  /\ open_handles (final r) = open_handles w
  /\ forall posts' bar',
       outcome r = Ok (posts', bar') ->
       posts' = posts ++ selected P c (pages_of (events r))
       /\ tqdm_disable bar' = tqdm_disable bar
       /\ tqdm_n bar' =
          (tqdm_n bar + if tqdm_disable bar then 0 else fetch_calls (events r))%nat.
Proof.
  revert cur posts bar w.
  induction budget as [|budget IH]; intros cur posts bar w; simpl.
  - unfold raise. simpl. by repeat split.
  - rewrite bind_unfold.
    destruct (fetch_feed_page_spec actor cur 50 w) as (Hf & Hc & Hh & Ho).
    destruct (fetch_feed_page actor cur 50 w) as [o w1 evs1]. simpl in *.
    destruct o as [fd|e]; simpl; [|by repeat split; try congruence].
    destruct Ho as [Hpg _]. rewrite bind_unfold. unfold lift at 1 2 3. simpl.
    destruct (scan_feed P c (feed fd) posts) as [posts1|e] eqn:Hscan; simpl;
      [|rewrite app_nil_r; by repeat split; try congruence].
    apply scan_feed_collects in Hscan.
    assert (selected P c [fd] = select P c (feed fd)) as Hsel
      by (unfold selected; simpl; apply app_nil_r).
    destruct (str_truthy (cursor fd)); simpl.
    + destruct (IH (cursor fd) posts1 (tqdm_update bar) w1) as (Hf2 & Hh2 & Ho2).
      destruct (fetch_all P budget c actor (cursor fd) posts1 (tqdm_update bar) w1)
        as [o2 w2 evs2]. simpl in *.
      split; [by rewrite forallb_app, Hf, Hf2|]. split; [congruence|].
      intros posts' bar' Hok. destruct (Ho2 _ _ Hok) as (-> & Hd & Hn).
      rewrite pages_of_app, selected_app, fetch_calls_app, Hpg, Hsel, Hc, Hscan.
      rewrite Hd, Hn, <- app_assoc. unfold tqdm_update.
      destruct (tqdm_disable bar) eqn:Hdis; simpl; rewrite ?Hdis;
        repeat split; lia.
    + unfold ret. simpl. rewrite !app_nil_r.
      split; [done|]. split; [done|].
      intros posts' bar' [= <- <-]. rewrite Hpg, Hsel, Hc, Hscan.
      unfold tqdm_update. destruct (tqdm_disable bar) eqn:Hdis; simpl;
        rewrite ?Hdis; repeat split; lia.
Qed.

Lemma bind_agree {A B} (m : M A) (k1 k2 : A -> M B) (w : World) :
  (forall x, outcome (m w) = Ok x -> k1 x (final (m w)) = k2 x (final (m w))) ->
  bind m k1 w = bind m k2 w.
Proof.
  intros H. unfold bind. destruct (outcome (m w)) eqn:Ho; [|done].
  by rewrite (H _ eq_refl).
Qed.

(** The budget [process_posts] passes is never the reason the loop stops:
    any budget above the number of answers left gives the same run. *)
Lemma fetch_all_budget (b1 b2 : nat) (c : Criteria P) (actor : string)
    (cur : option string) (posts : list Matched) (bar : Tqdm) (w : World) :
  (length (feed_script w) < b1)%nat ->
  (length (feed_script w) < b2)%nat ->
  fetch_all P b1 c actor cur posts bar w = fetch_all P b2 c actor cur posts bar w.
Proof.
  revert b2 cur posts bar w.
  induction b1 as [|b1 IH]; intros b2 cur posts bar w H1 H2; [lia|].
  destruct b2 as [|b2]; [lia|]. simpl.
  apply bind_agree. intros fd Hfd.
  destruct (fetch_feed_page_spec actor cur 50 w) as (_ & _ & _ & Ho).
  rewrite Hfd in Ho. destruct Ho as [_ Hlen].
  apply bind_agree. intros posts1 _. unfold lift. cbn [final].
  destruct (str_truthy (cursor fd)); cbn [negb]; [|done].
  apply IH; lia.
Qed.

Lemma login_run (h t : string) (w : World) :
  login h t w =
  mk_run (if login_ok w then Ok tt else Raise AuthError) w [EvLogin h t].
Proof. unfold login, bind, emit. simpl. by destruct (login_ok w). Qed.

Lemma close_file_run (h : Handle) (w : World) :
  close_file h w =
  mk_run (Ok tt) (set_open_handles w (remove_handle h (open_handles w))) [EvClose h].
Proof. reflexivity. Qed.

Lemma open_file_spec (h : Handle) (path : string) (w : World) :
  exists o w',
    open_file h path w = mk_run o w' [EvOpen h path]
    /\ match o with
       | Ok _ => open_handles w' = h :: open_handles w
       | Raise _ => open_handles w' = open_handles w
       end.
Proof.
  unfold open_file, fs_op, bind, emit. simpl.
  destruct (fs_script w) as [|[] s]; simpl; by eexists _, _.
Qed.

Lemma with_open_spec {A} (h : Handle) (path : string) (body : M A) (w : World) :
  exists o w',
    open_file h path w = mk_run o w' [EvOpen h path]
    /\ match o with
       | Ok _ =>
           open_handles w' = h :: open_handles w
           /\ with_open h path body w =
              mk_run (outcome (body w'))
                (set_open_handles (final (body w'))
                   (remove_handle h (open_handles (final (body w')))))
                (EvOpen h path :: events (body w') ++ [EvClose h])
       | Raise e =>
           open_handles w' = open_handles w
           /\ with_open h path body w = mk_run (Raise e) w' [EvOpen h path]
       end.
Proof.
  destruct (open_file_spec h path w) as (o & w' & Hopen & Hh).
  exists o, w'. split; [done|]. unfold with_open. rewrite bind_unfold, Hopen.
  destruct o; cbn [outcome final events]; (split; [done|]); [|done].
  unfold finally. by rewrite close_file_run.
Qed.

Lemma remove_handle_head (h : Handle) (hs : list Handle) :
  remove_handle h (h :: hs) = hs.
Proof. by destruct h. Qed.

Local Ltac trivial_shape fe :=
  exists fe, [], [], [], [], (Some (O, O));
  constructor; cbn [events outcome final app]; rewrite ?app_nil_r;
  [ done | done | done | done | done | constructor | by left | by intros ? [=] ].

(** Lines 132-185: openings, the loop, closings; on return every handle
    opened has been closed. *)
Lemma process_matched_spec (a : Args) (posts : list Matched) (bar : Tqdm)
    (w : World) :
  let r := process_matched a posts bar w in
  exists pre loop_evs post posts' res,
    events r = pre ++ loop_evs ++ post
    /\ forallb is_open_close pre = true
    /\ forallb is_open_close post = true
    /\ (preview_only a = true ->
        forallb (fun e => negb (is_backup_or_delete e)) (pre ++ post) = true)
    /\ loop_trace a posts' loop_evs res
    /\ (posts' = [] \/ posts' = posts)
    /\ forall rr, outcome r = Ok rr ->
         res = Some (deleted rr, failed rr)
         /\ matched rr = length posts
         /\ posts' = posts
         /\ scanned rr = (tqdm_n bar * 50)%nat
         /\ open_handles (final r) = open_handles w.
Proof.
  unfold process_matched.
  destruct (Nat.eqb (length posts) 0) eqn:Htot.
  { apply Nat.eqb_eq in Htot. destruct posts; [|discriminate].
    exists [], [], [], [], (Some (O, O)). unfold ret. simpl.
    repeat split; try done; try constructor; auto; by injection H as <-. }
  set (lf := if str_truthy (log_file a) then _ else _).
  set (bf := if str_truthy (backup_file a) then _ else _).
  destruct (preview_only a) eqn:Hprev; cbn [negb].
  - rewrite bind_unfold. unfold ret. cbn [outcome final events].
    rewrite bind_unfold.
    destruct (with_open_spec HLog lf (process_loop a posts (O, O)) w)
      as (o & w1 & _ & Hw).
    destruct o as [[]|e].
    + destruct Hw as [Hh1 ->]. cbn [outcome final events].
      destruct (process_loop_spec a posts (O, O) w1) as (res & Ht & Hh2 & Hout).
      destruct (process_loop a posts (O, O) w1) as [o2 w2 evs2].
      cbn [outcome final events fst snd] in *.
      destruct res as [[d f]|].
      * rewrite !Nat.add_0_r in Hout. subst o2. cbn [outcome final events ret app fst snd].
        exists [EvOpen HLog lf], evs2, [EvClose HLog], posts, (Some (d, f)).
        rewrite !app_nil_r. repeat split; try done; auto;
          injection H as <-; simpl; try done.
        rewrite Hh2, Hh1. by rewrite remove_handle_head.
      * destruct Hout as [e ->].
        exists [EvOpen HLog lf], evs2, [EvClose HLog], posts, None.
        simpl. repeat split; try done; auto.
    + destruct Hw as [Hh1 ->]. cbn [outcome final events app].
      exists [EvOpen HLog lf], [], [], [], (Some (O, O)).
      repeat split; try done; auto; constructor.
  - rewrite bind_unfold, bind_unfold.
    destruct (open_file_spec HBackup bf w) as (o & w0 & -> & Hh0).
    cbn [outcome final events].
    destruct o as [[]|e]; cbn [outcome final events ret app].
    2:{ exists [EvOpen HBackup bf], [], [], [], (Some (O, O)).
        repeat split; try done; auto; constructor. }
    rewrite bind_unfold.
    destruct (with_open_spec HLog lf (process_loop a posts (O, O)) w0)
      as (o & w1 & _ & Hw).
    destruct o as [[]|e].
    + destruct Hw as [Hh1 ->]. cbn [outcome final events].
      destruct (process_loop_spec a posts (O, O) w1) as (res & Ht & Hh2 & Hout).
      destruct (process_loop a posts (O, O) w1) as [o2 w2 evs2].
      cbn [outcome final events fst snd] in *.
      destruct res as [[d f]|].
      * rewrite !Nat.add_0_r in Hout. subst o2. cbn [outcome final events ret app fst snd].
        rewrite bind_unfold, close_file_run.
        cbn [outcome final events ret app fst snd open_handles set_open_handles].
        exists [EvOpen HBackup bf; EvOpen HLog lf], evs2,
          [EvClose HLog; EvClose HBackup], posts, (Some (d, f)).
        rewrite ?app_nil_r, <- ?app_assoc.
        repeat split; try done; auto; try congruence;
          injection H as <-; simpl; try done.
        rewrite Hh2, Hh1, Hh0. by rewrite !remove_handle_head.
      * destruct Hout as [e ->]. cbn [outcome final events ret app].
        exists [EvOpen HBackup bf; EvOpen HLog lf], evs2, [EvClose HLog], posts, None.
        repeat split; try done; auto; congruence.
    + destruct Hw as [Hh1 ->]. cbn [outcome final events app].
      exists [EvOpen HBackup bf; EvOpen HLog lf], [], [], [], (Some (O, O)).
      repeat split; try done; auto; try congruence; constructor.
Qed.

(** Every run of [process_posts] has the shape [run_shape]. *)
Lemma process_posts_shape (a : Args) (w : World) :
  exists fetch_evs pre loop_evs post posts res,
    run_shape P a w (process_posts P a w) fetch_evs pre loop_evs post posts res.
Proof.
  unfold process_posts.
  rewrite bind_unfold, login_run. cbn [outcome final events].
  destruct (login_ok w); [|trivial_shape (@nil Event)].
  rewrite bind_unfold. unfold get_now. cbn [outcome final events].
  rewrite bind_unfold. unfold lift. cbn [outcome final events].
  destruct (criteria_of P a (now_utc w)) as [c|e] eqn:Hc;
    [|trivial_shape (@nil Event)].
  rewrite bind_unfold. unfold page_budget. cbn [outcome final events].
  rewrite bind_unfold.
  destruct (fetch_all_spec (S (length (feed_script w))) c (handle a) None []
              (tqdm_new (quiet a)) w) as (Hf & Hh & Ho).
  destruct (fetch_all P (S (length (feed_script w))) c (handle a) None []
              (tqdm_new (quiet a)) w) as [o wf fevs].
  cbn [outcome final events] in *.
  destruct o as [[posts bar]|e]; [|trivial_shape fevs].
  destruct (Ho _ _ eq_refl) as (Hposts & Hdis & Hn). clear Ho.
  cbn [app tqdm_new tqdm_disable tqdm_n] in Hposts, Hdis, Hn.
  destruct (process_matched_spec a posts bar wf)
    as (pre & levs & post & posts' & res & Hev & Hpre & Hpost & Hprev & Ht & Hp & Hres).
  destruct (process_matched a posts bar wf) as [o2 w2 evs2].
  cbn [outcome final events app] in *. subst evs2.
  exists fevs, pre, levs, post, posts', res.
  constructor; cbn [outcome final events]; try done.
  - destruct Hp as [-> | ->]; [by left | right; by exists c].
  - intros rr Hrr. destruct (Hres rr Hrr) as (H1 & H2 & H3 & H4 & H5).
    subst posts'. repeat split; try done.
    + rewrite H4, Hn. by destruct (quiet a).
    + by exists c.
    + congruence.
Qed.

(** ** Projections of the parts of a trace *)

Lemma omap_none {B} (g : Event -> option B) (f : Event -> bool) (evs : list Event) :
  (forall e, f e = true -> g e = None) ->
  forallb f evs = true -> omap g evs = [].
Proof.
  intros Hg. induction evs as [|e l IH]; simpl; [done|].
  intros [He Hl]%andb_true_iff. rewrite (Hg e He). by apply IH.
Qed.

Lemma forallb_impl (f g : Event -> bool) (evs : list Event) :
  (forall e, f e = true -> g e = true) ->
  forallb f evs = true -> forallb g evs = true.
Proof.
  intros Hfg. induction evs as [|e l IH]; simpl; [done|].
  intros [He Hl]%andb_true_iff. by rewrite (Hfg e He), (IH Hl).
Qed.

Local Ltac part_by f H :=
  first [ apply (omap_none _ f); [by intros [] | exact H]
        | unfold deletes_ok, fetch_calls;
          rewrite (omap_none _ f); [done | by intros [] | exact H]
        | eapply forallb_impl; [|exact H]; by intros [] ].

Lemma fetch_part (evs : list Event) :
  forallb is_fetch_event evs = true ->
  log_writes evs = [] /\ backup_writes evs = [] /\ delete_calls evs = []
  /\ deletes_ok evs = O
  /\ forallb (fun e => negb (is_backup_or_delete e)) evs = true
  /\ forallb (fun e => negb (is_output_event e)) evs = true.
Proof. intros H. split_and!; part_by is_fetch_event H. Qed.

Lemma open_close_part (evs : list Event) :
  forallb is_open_close evs = true ->
  log_writes evs = [] /\ backup_writes evs = [] /\ delete_calls evs = []
  /\ deletes_ok evs = O /\ pages_of evs = [] /\ fetch_calls evs = O
  /\ forallb (fun e => negb (is_fetch_event e)) evs = true.
Proof. intros H. split_and!; part_by is_open_close H. Qed.

Lemma output_part (evs : list Event) :
  forallb is_output_event evs = true ->
  pages_of evs = [] /\ fetch_calls evs = O
  /\ forallb (fun e => negb (is_fetch_event e)) evs = true.
Proof. intros H. split_and!; part_by is_output_event H. Qed.

Lemma shape_projections (a : Args) (w : World) (r : Run RunResult)
    (fe pre le post : list Event) (posts : list Matched) (res : option (nat * nat)) :
  run_shape P a w r fe pre le post posts res ->
  pages_of (events r) = pages_of fe
  /\ fetch_calls (events r) = fetch_calls fe
  /\ log_writes (events r) = log_writes le
  /\ backup_writes (events r) = backup_writes le
  /\ delete_calls (events r) = delete_calls le
  /\ deletes_ok (events r) = deletes_ok le.
Proof.
  intros [Hev Hf Hpre Hpost _ Ht _ _]. rewrite Hev.
  apply loop_trace_output in Ht.
  destruct (fetch_part _ Hf) as (F1 & F2 & F3 & F4 & _).
  destruct (open_close_part _ Hpre) as (A1 & A2 & A3 & A4 & A5 & A6 & _).
  destruct (open_close_part _ Hpost) as (B1 & B2 & B3 & B4 & B5 & B6 & _).
  destruct (output_part _ Ht) as (L1 & L2 & _).
  unfold pages_of, fetch_calls, log_writes, backup_writes, delete_calls, deletes_ok in *.
  cbn [omap list_omap]. rewrite !omap_app, !length_app.
  rewrite F1, F2, F3, A1, A2, A3, A5, B1, B2, B3, B5, L1.
  apply length_zero_iff_nil in F4, A4, A6, B4, B6, L2.
  rewrite ?F4, ?A4, ?A6, ?B4, ?B6, ?L2. simpl. rewrite !app_nil_r.
  repeat split; lia.
Qed.


(** What a matched entry holds: the post's own uri, the post, and its
    timestamp in UTC. *)
Lemma scan_item_entry (c : Criteria P) (item : FeedViewPost) (m : Matched) :
  scan_item P c item = Ok (Some m) ->
  m_post m = post item /\ m_uri m = uri (post item) /\ tzinfo (m_pt m) = Some 0.
Proof.
  unfold scan_item. destruct (isoparse P (indexed_at (post item))) as [pt|]; [|done].
  simpl. destruct (dt_ltb _ _); [|done].
  destruct (is_repost_of (embed (post item))) as [rp|]; [|done]. simpl.
  destruct (_ || _); [done|]. destruct (_ && _); [|done].
  intros [= <-]. unfold m_post, m_uri, m_pt. simpl.
  split; [done|]. split; [done|]. apply normalize_indexed_at_utc.
Qed.



(** C3. In preview mode no event of the run opens, writes or closes the
    backup file or calls delete, and a returned result has [deleted = 0] and
    [failed = 0]. *)
Theorem C3_preview_is_dry (a : Args) (w : World) :
  preview_only a = true ->
  let r := process_posts P a w in
  forallb (fun e => negb (is_backup_or_delete e)) (events r) = true
  /\ forall rr, outcome r = Ok rr -> deleted rr = O /\ failed rr = O.
Proof.
  intros Hprev r.
  destruct (process_posts_shape a w) as (fe & pre & le & post & posts & res & Hs).
  fold r in Hs. destruct Hs as [Hev Hf _ _ Hpp Ht _ Hres].
  destruct (loop_trace_preview _ _ _ _ Hprev Ht) as [Hle Hz].
  destruct (fetch_part _ Hf) as (_ & _ & _ & _ & Hfe & _).
  specialize (Hpp Hprev). rewrite forallb_app in Hpp.
  apply andb_true_iff in Hpp as [Hpre Hpost].
  split.
  - rewrite Hev. simpl. by rewrite !forallb_app, Hfe, Hpre, Hle, Hpost.
  - intros rr Hrr. destruct (Hres rr Hrr) as (-> & _).
    destruct Hz as [Hz | Hz]; [done|]. by injection Hz as -> ->.
Qed.

(** C4. Outside preview mode a returned result has
    [deleted + failed = matched], where [matched] is the size of the filtered
    set: there is one delete call per matched post, in order, [deleted] counts
    the calls that succeeded and [failed] the others. *)
Theorem C4_deleted_plus_failed (a : Args) (w : World) (rr : RunResult) :
  preview_only a = false ->
  outcome (process_posts P a w) = Ok rr ->
  let evs := events (process_posts P a w) in
  (deleted rr + failed rr = matched rr)%nat
  /\ deleted rr = deletes_ok evs
  /\ exists c, criteria_of P a (now_utc w) = Ok c
       /\ matched rr = length (selected P c (pages_of evs))
       /\ delete_calls evs = map m_uri (selected P c (pages_of evs)).
Proof.
  intros Hprev Hrr evs. subst evs.
  destruct (process_posts_shape a w) as (fe & pre & le & post & posts & res & Hs).
  pose proof (shape_projections _ _ _ _ _ _ _ _ _ Hs) as (Hpg & _ & _ & _ & Hdc & Hok).
  destruct Hs as [_ _ _ _ _ Ht _ Hres].
  destruct (Hres rr Hrr) as (-> & Hm & _ & (c & Hc & Hsel) & _).
  destruct (loop_trace_complete _ _ _ _ _ Hprev Ht) as (_ & _ & Hd & Hdo & Hsum).
  rewrite Hpg, Hdc, Hok, Hm. split; [done|]. split; [done|].
  exists c. by rewrite <- Hsel.
Qed.

(** With the page bar enabled, [scanned] is fifty times the number of
    [fetch_feed_page] calls. *)
Lemma scanned_when_not_quiet (a : Args) (w : World) (rr : RunResult) :
  quiet a = false ->
  outcome (process_posts P a w) = Ok rr ->
  scanned rr = (fetch_calls (events (process_posts P a w)) * 50)%nat.
Proof.
  intros Hq Hrr.
  destruct (process_posts_shape a w) as (fe & pre & le & post & posts & res & Hs).
  pose proof (shape_projections _ _ _ _ _ _ _ _ _ Hs) as (_ & Hfc & _).
  destruct Hs as [_ _ _ _ _ _ _ Hres].
  destruct (Hres rr Hrr) as (_ & _ & -> & _). by rewrite Hfc, Hq.
Qed.

(** With the page bar disabled ([quiet]), [scanned] is zero. *)
Lemma scanned_when_quiet (a : Args) (w : World) (rr : RunResult) :
  quiet a = true ->
  outcome (process_posts P a w) = Ok rr ->
  scanned rr = O.
Proof.
  intros Hq Hrr.
  destruct (process_posts_shape a w) as (fe & pre & le & post & posts & res & Hs).
  destruct Hs as [_ _ _ _ _ _ _ Hres].
  destruct (Hres rr Hrr) as (_ & _ & -> & _). by rewrite Hq.
Qed.

(** On return every file handle the run opened has been closed. *)
Lemma handles_closed_on_return (a : Args) (w : World) (rr : RunResult) :
  outcome (process_posts P a w) = Ok rr ->
  open_handles (final (process_posts P a w)) = open_handles w.
Proof.
  intros Hrr.
  destruct (process_posts_shape a w) as (fe & pre & le & post & posts & res & Hs).
  destruct Hs as [_ _ _ _ _ _ _ Hres]. by destruct (Hres rr Hrr) as (_ & _ & _ & _ & ?).
Qed.


(** ** [cli]: which password reaches [login] *)

(** A non-empty [--token] is the password used, whatever the environment. *)
Lemma resolve_token_flag_first (env : CliEnv) (t : string) (w : World) :
  t <> "" ->
  resolve_token env (Some t) w = mk_run (Ok t) w [].
Proof.
  intros Ht. unfold resolve_token. simpl.
  destruct (String.eqb_spec t ""); [done|]. simpl.
  by destruct (String.eqb_spec t "").
Qed.

(** Without [--token], a non-empty [BYESKY_TOKEN] is the password used. *)
Lemma resolve_token_env_second (env : CliEnv) (t : string) (w : World) :
  t <> "" ->
  environ env !! "BYESKY_TOKEN" = Some t ->
  resolve_token env None w = mk_run (Ok t) w [].
Proof.
  intros Ht He. unfold resolve_token. simpl. rewrite He. simpl.
  by destruct (String.eqb_spec t "").
Qed.

End RunFacts.

(** * The model run on concrete inputs *)

Section Runs.

Import Demo.

(** Scenario D of the specification: one of two deletions fails. *)
Example scenario_d :
  outcome (process_posts platform (args false false) world_one_failure)
  = Ok (mk_result 50 2 1 1).
Proof. reflexivity. Qed.

(** Scenario C of the specification: pattern ["foo"] matches the text
    ["Foobar"]. *)
Example scenario_c :
  patterns_match platform (Substrings ["foo"]) "Foobar" = true.
Proof. reflexivity. Qed.


Lemma C3_preview_is_dry_witness :
  preview_only (args true false) = true
  /\ forallb (fun e => negb (is_backup_or_delete e))
       (events (process_posts platform (args true false) world_preview)) = true
  /\ outcome (process_posts platform (args true false) world_preview)
     = Ok (mk_result 50 2 0 0).
Proof.
  pose proof (C3_preview_is_dry platform (args true false) world_preview eq_refl)
    as [Hdry _].
  split; [reflexivity|]. split; [exact Hdry | reflexivity].
Defined.

Lemma C4_deleted_plus_failed_witness :
  preview_only (args false false) = false
  /\ outcome (process_posts platform (args false false) world_one_failure)
     = Ok (mk_result 50 2 1 1)
  /\ (deleted (mk_result 50 2 1 1) + failed (mk_result 50 2 1 1)
      = matched (mk_result 50 2 1 1))%nat.
Proof.
  pose proof (C4_deleted_plus_failed platform (args false false) world_one_failure
                (mk_result 50 2 1 1) eq_refl eq_refl) as [Hsum _].
  split; [reflexivity|]. split; [reflexivity | exact Hsum].
Defined.

(** C2. The code at posts older than the cutoff with attribute-style embeds,
    reposts excluded, no bounds and no patterns.  A post whose embed declares
    the repost view type ["app.bsky.embed.record#view"] is put in the matched
    set, and a run outside preview mode deletes it; a post that is no reply
    and whose embed declares an image view is left out of the matched set. *)
Theorem C2_declared_repost_is_matched :
  criteria_of platform (args false false) NOW = Ok args_criteria
  /\ includeReposts args_criteria = false
  /\ after_dt args_criteria = None /\ before_dt args_criteria = None
  /\ compiled_patterns args_criteria = Substrings []
  /\ instant (utc_datetime MORNING_2023_06_01) < instant (cutoff args_criteria)
  /\ declared_type (embed (post declared_repost_item)) = Some (PyStr REPOST_VIEW)
  /\ scan_item platform args_criteria declared_repost_item
     = Ok (Some (uri (post declared_repost_item), post declared_repost_item,
                 utc_datetime MORNING_2023_06_01))
  /\ outcome (process_posts platform (args false false) world_declared_repost)
     = Ok (mk_result 50 1 1 0)
  /\ delete_calls (events (process_posts platform (args false false)
                             world_declared_repost))
     = [uri (post declared_repost_item)]
  /\ reply (post declared_images_item) = None
  /\ declared_type (embed (post declared_images_item))
     = Some (PyStr "app.bsky.embed.images#view")
  /\ scan_item platform args_criteria declared_images_item = Ok None.
Proof. vm_compute. repeat split. Qed.

(** C5. The code at a timestamp without offset, on a machine whose time zone
    is UTC+02:00: [astimezone] does not raise, so the [except] branch that
    would attach UTC is not taken and the clock time is shifted by two
    hours. *)
Theorem C5_naive_timestamp_is_shifted :
  isoparse platform "2024-01-01T12:00:00" = Ok naive_noon
  /\ tzinfo naive_noon = None
  /\ normalize_indexed_at platform naive_noon
     = utc_datetime (NOON_2024_01_01 - 2 * HOUR)
  /\ normalize_indexed_at platform naive_noon <> replace_tzinfo_utc naive_noon.
Proof. repeat split. discriminate. Qed.

(** C6. The code at attribute-style embeds: the branch tests the ["$type"]
    attribute and then compares the ["type"] attribute.  An embed that
    declares the repost view is classified as no repost, or raises when it
    has no ["type"]; an embed that declares another type is classified as a
    repost when its ["type"] says so. *)
Theorem C6_attribute_embed_reads_type :
  declared_type (Some embed_declares_repost) = Some (PyStr REPOST_VIEW)
  /\ is_repost_of (Some embed_declares_repost) = Ok false
  /\ declared_type (Some embed_bare_repost) = Some (PyStr REPOST_VIEW)
  /\ is_repost_of (Some embed_bare_repost) = Raise AttributeError
  /\ declared_type (Some embed_images) = Some (PyStr "app.bsky.embed.images#view")
  /\ is_repost_of (Some embed_images) = Ok true.
Proof. vm_compute. repeat split. Qed.

(** C7. The code when the log file cannot be opened, and when a log write
    raises: the run ends with an exception, the backup handle opened on line
    149 is still open and no close of it was issued, while the log handle of
    the [with] block is closed. *)
Theorem C7_backup_handle_left_open :
  outcome (process_posts platform (args false false) world_log_open_fails)
  = Raise OSError
  /\ open_handles (final (process_posts platform (args false false) world_log_open_fails))
     = [HBackup]
  /\ List.filter is_open_close
       (events (process_posts platform (args false false) world_log_open_fails))
     = [EvOpen HBackup "deleted_posts_backup.jsonl"; EvOpen HLog "deleted_posts_log.txt"]
  /\ outcome (process_posts platform (args false false) world_log_write_fails)
     = Raise OSError
  /\ open_handles (final (process_posts platform (args false false) world_log_write_fails))
     = [HBackup]
  /\ List.filter is_open_close
       (events (process_posts platform (args false false) world_log_write_fails))
     = [EvOpen HBackup "deleted_posts_backup.jsonl"; EvOpen HLog "deleted_posts_log.txt";
        EvClose HLog].
Proof. vm_compute. repeat split. Qed.

(** C8. The code with both [--token] and [BYESKY_TOKEN] set: the password
    passed to [login] is the flag's. *)
Theorem C8_flag_wins_over_environment :
  environ env_with_token !! "BYESKY_TOKEN" = Some "env-pw"
  /\ head (events (cli platform env_with_token "me.bsky.social" (Some "flag-pw") 30
                     true None [] false None None None false false false false
                     (world [one_page []] [] [])))
     = Some (EvLogin "me.bsky.social" "flag-pw").
Proof. vm_compute. repeat split. Qed.

(** C9. The code in quiet mode: the page bar is created disabled, its
    [update] does not count, and [scanned] is 0 after one [fetch_feed_page]
    call. *)
Theorem C9_quiet_scanned_is_zero :
  outcome (process_posts platform (args true true) world_preview)
  = Ok (mk_result 0 2 0 0)
  /\ fetch_calls (events (process_posts platform (args true true) world_preview))
     = 1%nat.
Proof. vm_compute. repeat split. Qed.

End Runs.

(** * Beyond the claims: the pure code *)

Section MorePureFacts.

Variable P : Platform.

Lemma append_assoc (a b c : string) : (a +:+ b) +:+ c = a +:+ (b +:+ c).
Proof.
  induction a as [|x a IH]; [done|].
  change (String x ((a +:+ b) +:+ c) = String x (a +:+ (b +:+ c))). by f_equal.
Qed.

Lemma append_nil_r (a : string) : a +:+ "" = a.
Proof.
  induction a as [|x a IH]; [done|].
  change (String x (a +:+ "") = String x a). by f_equal.
Qed.

Lemma append_cons (x : ascii) (a b : string) :
  String x a +:+ b = String x (a +:+ b).
Proof. reflexivity. Qed.

Lemma append_nil_l (a : string) : "" +:+ a = a.
Proof. reflexivity. Qed.

Lemma contains_char_append (c : ascii) (a b : string) :
  str_contains_char c (a +:+ b) = str_contains_char c a || str_contains_char c b.
Proof.
  induction a as [|x a IH]; [done|].
  rewrite append_cons. simpl. by rewrite IH, orb_assoc.
Qed.

Lemma last_segment_acc_spec (s acc : string) :
  str_contains_char slash acc = false ->
  str_contains_char slash (last_segment_acc acc s) = false
  /\ exists pre, acc +:+ s = pre +:+ last_segment_acc acc s
                 /\ (pre = "" \/ exists pre', pre = pre' +:+ "/").
Proof.
  revert acc. induction s as [|c s IH]; intros acc Hacc; simpl.
  - split; [done|]. exists "". split; [by rewrite append_nil_r | by left].
  - destruct (Ascii.eqb_spec c slash) as [-> | Hc].
    + destruct (IH "" eq_refl) as (Hno & pre & Heq & Hpre).
      rewrite append_nil_l in Heq.
      split; [done|]. exists ((acc +:+ "/") +:+ pre). split.
      * rewrite !append_assoc, append_cons, append_nil_l, <- Heq. done.
      * right. destruct Hpre as [-> | [pre' ->]].
        -- exists acc. by rewrite append_nil_r.
        -- exists ((acc +:+ "/") +:+ pre'). by rewrite !append_assoc.
    + assert (str_contains_char slash (acc +:+ String c "") = false) as Hacc'.
      { rewrite contains_char_append, Hacc. simpl.
        by destruct (Ascii.eqb_spec c slash). }
      destruct (IH _ Hacc') as (Hno & pre & Heq & Hpre).
      split; [done|]. exists pre. split; [|done].
      by rewrite <- Heq, append_assoc.
Qed.

(** X1. The record key [uri.split("/")[-1]] never holds a slash, and the uri
    is that key after a prefix that is empty or ends in a slash; a uri
    without any slash is its own key. *)
Theorem X1_last_segment_is_final_path_segment (s : string) :
  str_contains_char slash (last_segment s) = false
  /\ (exists pre, s = pre +:+ last_segment s
                  /\ (pre = "" \/ exists pre', pre = pre' +:+ "/"))
  /\ (str_contains_char slash s = false -> last_segment s = s).
Proof.
  destruct (last_segment_acc_spec s "" eq_refl) as (Hno & pre & Heq & Hpre).
  fold (last_segment s) in *. rewrite append_nil_l in Heq.
  split; [done|]. split; [by exists pre|].
  intros Hs. destruct Hpre as [-> | [pre' ->]]; [done|].
  rewrite Heq, append_assoc, contains_char_append in Hs.
  rewrite append_cons in Hs. simpl in Hs.
  rewrite orb_true_r in Hs. discriminate.
Qed.

(** X2. The text of a log record has the length of the post text, holds no
    newline, and is the post text itself when that has none. *)
Theorem X2_replace_newlines_single_line (s : string) :
  String.length (replace_newlines s) = String.length s
  /\ str_contains_char newline (replace_newlines s) = false
  /\ (str_contains_char newline s = false -> replace_newlines s = s).
Proof.
  induction s as [|c s (IH1 & IH2 & IH3)]; simpl; [done|].
  destruct (Ascii.eqb_spec c newline) as [-> | Hc]; simpl.
  - by rewrite IH1, IH2.
  - destruct (Ascii.eqb_spec c newline); [done|]. simpl.
    rewrite IH1, IH2. repeat split; try done. intros H. by rewrite IH3.
Qed.

(** X3. A post whose normalised timestamp is not before the cutoff is left
    out without its reply or embed being looked at: the result is the same
    whatever the embed, also one on which the classification would raise. *)
Theorem X3_recent_post_not_inspected (c : Criteria P) (item : FeedViewPost)
    (pt0 : datetime) :
  isoparse P (indexed_at (post item)) = Ok pt0 ->
  instant (cutoff c) <= instant (normalize_indexed_at P pt0) ->
  scan_item P c item = Ok None.
Proof.
  intros Hp Hge. unfold scan_item. rewrite Hp. simpl. unfold dt_ltb.
  by destruct (Z.ltb_spec (instant (normalize_indexed_at P pt0)) (instant (cutoff c)));
    [lia|].
Qed.

(** X4. An embed object that has a ["$type"] attribute and no ["type"]
    attribute makes the scan of a post older than the cutoff raise
    [AttributeError], whatever the filters, also when reposts are included. *)
Theorem X4_embed_without_type_raises (c : Criteria P) (item : FeedViewPost)
    (pt0 : datetime) (attrs : gmap string pyval) :
  isoparse P (indexed_at (post item)) = Ok pt0 ->
  instant (normalize_indexed_at P pt0) < instant (cutoff c) ->
  embed (post item) = Some (EmbedObject attrs) ->
  is_Some (attrs !! "$type") ->
  attrs !! "type" = None ->
  scan_item P c item = Raise AttributeError.
Proof.
  intros Hp Hlt He Hd Ht. unfold scan_item. rewrite Hp. simpl. unfold dt_ltb.
  destruct (Z.ltb_spec (instant (normalize_indexed_at P pt0)) (instant (cutoff c)));
    [|lia].
  rewrite He. unfold is_repost_of. simpl.
  rewrite bool_decide_eq_true_2 by done. simpl. by rewrite Ht.
Qed.

(** X5. The scan of a page stops at the first item that raises (an
    unparsable [indexed_at], an embed that cannot be classified): the page
    scan raises that exception and returns no matched list. *)
Theorem X5_scan_feed_first_error (c : Criteria P) (before_ after_ : list FeedViewPost)
    (item : FeedViewPost) (e : exn) (posts : list Matched) :
  Forall (fun it => is_raise (scan_item P c it) = false) before_ ->
  scan_item P c item = Raise e ->
  scan_feed P c (before_ ++ item :: after_) posts = Raise e.
Proof.
  intros Hb He. revert posts.
  induction Hb as [|it l Hit _ IH]; intros posts; simpl.
  - by rewrite He.
  - destruct (scan_item P c it) as [m|]; [|done]. simpl. apply IH.
Qed.

(** X6. The matched entries of a page are entries of its items, in feed
    order: their posts form a sublist of the posts of the feed. *)
Theorem X6_select_is_sublist (c : Criteria P) (items : list FeedViewPost) :
  sublist (map m_post (select P c items)) (map post items).
Proof.
  unfold select. induction items as [|item items IH]; simpl; [constructor|].
  destruct (scan_item P c item) as [[m|]|] eqn:Hs; simpl.
  - apply scan_item_entry in Hs as (-> & _). by constructor.
  - by constructor.
  - by constructor.
Qed.

(** X7. An offset-aware timestamp keeps its instant when it is normalised;
    when the conversion leaves the datetime range the [except] branch keeps
    its clock time and drops the offset. *)
Theorem X7_normalize_aware_instant (pt : datetime) (off : Z) :
  tzinfo pt = Some off ->
  if dt_in_range (wall pt - off)
  then instant (normalize_indexed_at P pt) = instant pt
  else normalize_indexed_at P pt = utc_datetime (wall pt).
Proof.
  intros Ht. unfold normalize_indexed_at, astimezone_utc. rewrite Ht.
  destruct (dt_in_range (wall pt - off)); [|done].
  unfold instant. simpl. rewrite Ht. simpl. lia.
Qed.

(** X8. Every datetime the filter compares carries UTC: the cutoff and the
    [after]/[before] bounds that [process_posts] computes are offset-aware
    with offset zero, as the normalised post timestamps are. *)
Theorem X8_criteria_are_utc (a : Args) (now : Z) (c : Criteria P) :
  criteria_of P a now = Ok c ->
  tzinfo (cutoff c) = Some 0
  /\ (forall d, after_dt c = Some d -> tzinfo d = Some 0)
  /\ (forall d, before_dt c = Some d -> tzinfo d = Some 0).
Proof.
  assert (forall s d, parse_bound P s = Ok (Some d) -> tzinfo d = Some 0) as Hb.
  { intros s d. unfold parse_bound. destruct (str_truthy s); [|done].
    destruct (dateutil_parse P (default "" s)) as [d0|]; [|done]. simpl.
    unfold astimezone_utc. destruct (dt_in_range _); [|done]. simpl.
    by intros [= <-]. }
  unfold criteria_of, compute_cutoff.
  destruct (TIMEDELTA_MAX_DAYS <? Z.abs (days_old a)); [done|].
  destruct (dt_in_range _); [|done]. simpl.
  destruct (parse_bound P (after a)) as [ad|] eqn:Ha; [|done]. simpl.
  destruct (parse_bound P (before a)) as [bd|] eqn:Hbe; [|done]. simpl.
  destruct (prepare_matchers P (match_patterns a) (use_regex a)); [|done]. simpl.
  intros [= <-]. simpl. split; [done|].
  split; intros d ->; eauto.
Qed.

(** X9. A pattern whose lowered form is empty matches every text in
    substring mode, so a run with [--match ""] filters nothing out by
    text. *)
Theorem X9_empty_pattern_matches_all (pats : list string) (p text : string) :
  In p pats ->
  str_lower P p = "" ->
  patterns_match P (Substrings pats) text = true.
Proof.
  intros Hin Hp. unfold patterns_match.
  destruct pats as [|q pats]; [done|]. simpl matchers_empty. cbv iota.
  apply existsb_exists. exists p. split; [done|]. rewrite Hp.
  by destruct (str_lower P text).
Qed.

End MorePureFacts.

(** * Beyond the claims: the code with effects *)

Section MoreRunFacts.

Variable P : Platform.

Local Open Scope pipeline_scope.

(** [process_posts] phase by phase. *)
Lemma process_posts_unfold (a : Args) (w : World) :
  process_posts P a w =
  if login_ok w then
    match criteria_of P a (now_utc w) with
    | Ok c =>
        let f := fetch_all P (S (length (feed_script w))) c (handle a) None []
                   (tqdm_new (quiet a)) w in
        match outcome f with
        | Ok (posts, bar) =>
            let r2 := process_matched a posts bar (final f) in
            mk_run (outcome r2) (final r2)
              (EvLogin (handle a) (token a) :: events f ++ events r2)
        | Raise e => mk_run (Raise e) (final f) (EvLogin (handle a) (token a) :: events f)
        end
    | Raise e => mk_run (Raise e) w [EvLogin (handle a) (token a)]
    end
  else mk_run (Raise AuthError) w [EvLogin (handle a) (token a)].
Proof.
  unfold process_posts.
  rewrite bind_unfold, login_run. cbn [outcome final events].
  destruct (login_ok w); [|done].
  rewrite bind_unfold. unfold get_now. cbn [outcome final events].
  rewrite bind_unfold. unfold lift. cbn [outcome final events].
  destruct (criteria_of P a (now_utc w)) as [c|e]; [|done].
  rewrite bind_unfold. unfold page_budget. cbn [outcome final events].
  rewrite bind_unfold. cbn zeta.
  destruct (fetch_all P _ c (handle a) None [] (tqdm_new (quiet a)) w) as [o wf fevs].
  cbn [outcome final events]. by destruct o as [[posts bar]|e].
Qed.

(** The events and answers of one retried page fetch. *)
Lemma fetch_feed_page_attempts (actor : string) (cur : option string)
    (limit : Z) (w : World) :
  let r := fetch_feed_page actor cur limit w in
  exists answers,
    events r = EvFetchFeedPage actor cur limit
               :: map (EvGetAuthorFeed actor cur limit) answers
    /\ (1 <= length answers <= 3)%nat
    /\ last answers = Some (outcome r)
    /\ forallb is_raise (removelast answers) = true
    /\ (is_raise (outcome r) = true -> length answers = 3%nat)
    /\ answers = take (length answers) (feed_script w ++ three_failures)
    /\ feed_script (final r) = drop (length answers) (feed_script w).
Proof.
  unfold fetch_feed_page, retry_on_network, try_except, bind, emit, get_author_feed.
  simpl.
  destruct (feed_script w) as [|[fd1|e1] [|[fd2|e2] [|[fd3|e3] s3]]] eqn:Hs;
    simpl; rewrite ?Hs; simpl; rewrite ?Hs; simpl;
    first [ eexists [_]; split; [reflexivity|]
          | eexists [_; _]; split; [reflexivity|]
          | eexists [_; _; _]; split; [reflexivity|] ];
    cbn; rewrite ?Hs; repeat split; try done; lia.
Qed.

(** The events and answers of one retried delete. *)
Lemma delete_record_attempts (h u : string) (w : World) :
  let r := delete_record h u w in
  exists answers,
    events r = EvDeleteRecord h u
               :: map (EvRepoDeleteRecord h "app.bsky.feed.post" (last_segment u)) answers
    /\ (1 <= length answers <= 3)%nat
    /\ last answers = Some (outcome r)
    /\ forallb is_raise (removelast answers) = true
    /\ (is_raise (outcome r) = true -> length answers = 3%nat)
    /\ answers = take (length answers) (delete_script w ++ three_failures)
    /\ delete_script (final r) = drop (length answers) (delete_script w)
    /\ fs_script (final r) = fs_script w.
Proof.
  unfold delete_record, retry_on_network, try_except, bind, emit, repo_delete_record.
  simpl.
  destruct (delete_script w) as [|[[]|e1] [|[[]|e2] [|[[]|e3] s3]]] eqn:Hs;
    simpl; rewrite ?Hs; simpl; rewrite ?Hs; simpl;
    first [ eexists [_]; split; [reflexivity|]
          | eexists [_; _]; split; [reflexivity|]
          | eexists [_; _; _]; split; [reflexivity|] ];
    cbn; rewrite ?Hs; repeat split; try done; lia.
Qed.

(** X10. One [fetch_feed_page] call makes one to three [get_author_feed]
    attempts with the call's own arguments, taking the service's answers in
    order; every attempt but the last raised, the call returns what the last
    attempt gave, and it raises only after three attempts. *)
Theorem X10_fetch_feed_page_retries (actor : string) (cur : option string)
    (limit : Z) (w : World) :
  let r := fetch_feed_page actor cur limit w in
  exists answers,
    events r = EvFetchFeedPage actor cur limit
               :: map (EvGetAuthorFeed actor cur limit) answers
    /\ (1 <= length answers <= 3)%nat
    /\ last answers = Some (outcome r)
    /\ forallb is_raise (removelast answers) = true
    /\ (is_raise (outcome r) = true -> length answers = 3%nat)
    /\ answers = take (length answers) (feed_script w ++ three_failures)
    /\ feed_script (final r) = drop (length answers) (feed_script w).
Proof. apply fetch_feed_page_attempts. Qed.

(** X11. One [delete_record] call makes one to three [repo.delete_record]
    attempts, each for the user's repo, the collection ["app.bsky.feed.post"]
    and the last path segment of the uri; it stops at the first success and
    raises only after three failed attempts. *)
Theorem X11_delete_record_retries (h u : string) (w : World) :
  let r := delete_record h u w in
  exists answers,
    events r = EvDeleteRecord h u
               :: map (EvRepoDeleteRecord h "app.bsky.feed.post" (last_segment u)) answers
    /\ (1 <= length answers <= 3)%nat
    /\ last answers = Some (outcome r)
    /\ forallb is_raise (removelast answers) = true
    /\ (is_raise (outcome r) = true -> length answers = 3%nat)
    /\ answers = take (length answers) (delete_script w ++ three_failures)
    /\ delete_script (final r) = drop (length answers) (delete_script w).
Proof.
  destruct (delete_record_attempts h u w) as (ans & H1 & H2 & H3 & H4 & H5 & H6 & H7 & _).
  by exists ans.
Qed.

(** ** Rules for [always] *)

Lemma always_ret {A} (Q : Event -> Prop) (x : A) : always Q (ret x).
Proof. intros w. constructor. Qed.

Lemma always_raise {A} (Q : Event -> Prop) (e : exn) : always Q (@raise A e).
Proof. intros w. constructor. Qed.

Lemma always_lift {A} (Q : Event -> Prop) (r : Result A) : always Q (lift r).
Proof. intros w. constructor. Qed.

Lemma always_silent {A} (Q : Event -> Prop) (m : M A) :
  (forall w, events (m w) = []) -> always Q m.
Proof. intros H w. rewrite H. constructor. Qed.

Lemma always_emit (Q : Event -> Prop) (ev : Event) : Q ev -> always Q (emit ev).
Proof. intros H w. by repeat constructor. Qed.

Lemma always_bind {A B} (Q : Event -> Prop) (m : M A) (k : A -> M B) :
  always Q m -> (forall x, always Q (k x)) -> always Q (bind m k).
Proof.
  intros Hm Hk w. rewrite bind_unfold.
  destruct (outcome (m w)); cbn [events]; [|apply Hm].
  apply Forall_app. split; [apply Hm | apply Hk].
Qed.

Lemma always_try_except {A} (Q : Event -> Prop) (m : M A) (h : exn -> M A) :
  always Q m -> (forall e, always Q (h e)) -> always Q (try_except m h).
Proof.
  intros Hm Hh w. unfold try_except.
  destruct (outcome (m w)); cbn [events]; [apply Hm|].
  apply Forall_app. split; [apply Hm | apply Hh].
Qed.

Lemma always_finally {A} (Q : Event -> Prop) (m : M A) (c : M unit) :
  always Q m -> always Q c -> always Q (finally m c).
Proof.
  intros Hm Hc w. unfold finally. cbn [events].
  apply Forall_app. split; [apply Hm | apply Hc].
Qed.

Lemma always_retry {A} (Q : Event -> Prop) (f : M A) :
  always Q f -> always Q (retry_on_network f).
Proof.
  intros Hf. unfold retry_on_network.
  apply always_try_except; [done|]. intros _.
  by apply always_try_except.
Qed.

Lemma always_fs_op (Q : Event -> Prop) : always Q fs_op.
Proof. apply always_silent. intros w. unfold fs_op. by destruct (fs_script w). Qed.

Lemma always_fetch_feed_page (Q : Event -> Prop) (actor : string)
    (cur : option string) (limit : Z) :
  Q (EvFetchFeedPage actor cur limit) ->
  (forall ans, Q (EvGetAuthorFeed actor cur limit ans)) ->
  always Q (fetch_feed_page actor cur limit).
Proof.
  intros H1 H2. unfold fetch_feed_page.
  apply always_bind; [by apply always_emit|]. intros _.
  apply always_retry. intros w. unfold get_author_feed.
  destruct (feed_script w); cbn [events]; by repeat constructor.
Qed.

Lemma always_delete_record (Q : Event -> Prop) (h u : string) :
  Q (EvDeleteRecord h u) ->
  (forall ans, Q (EvRepoDeleteRecord h "app.bsky.feed.post" (last_segment u) ans)) ->
  always Q (delete_record h u).
Proof.
  intros H1 H2. unfold delete_record.
  apply always_bind; [by apply always_emit|]. intros _.
  apply always_retry. intros w. unfold repo_delete_record.
  destruct (delete_script w); cbn [events]; by repeat constructor.
Qed.

Lemma always_open_file (Q : Event -> Prop) (h : Handle) (path : string) :
  Q (EvOpen h path) -> always Q (open_file h path).
Proof.
  intros H. unfold open_file.
  apply always_bind; [by apply always_emit|]. intros _.
  apply always_bind; [apply always_fs_op|]. intros _.
  by apply always_silent.
Qed.

Lemma always_close_file (Q : Event -> Prop) (h : Handle) :
  Q (EvClose h) -> always Q (close_file h).
Proof.
  intros H. unfold close_file.
  apply always_bind; [by apply always_emit|]. intros _. by apply always_silent.
Qed.

Lemma always_fetch_all (Q : Event -> Prop) (budget : nat) (c : Criteria P)
    (actor : string) (cur : option string) (posts : list Matched) (bar : Tqdm) :
  (forall cur', Q (EvFetchFeedPage actor cur' 50)) ->
  (forall cur' ans, Q (EvGetAuthorFeed actor cur' 50 ans)) ->
  always Q (fetch_all P budget c actor cur posts bar).
Proof.
  intros H1 H2. revert cur posts bar.
  induction budget as [|budget IH]; intros cur posts bar; simpl.
  - apply always_raise.
  - apply always_bind; [by apply always_fetch_feed_page|]. intros fd.
    apply always_bind; [apply always_lift|]. intros posts'.
    destruct (negb _); [apply always_ret | apply IH].
Qed.

Lemma always_process_loop (Q : Event -> Prop) (a : Args) (posts : list Matched)
    (counts : nat * nat) :
  (forall pt text, Q (EvWriteLog pt text)) ->
  (forall entry, preview_only a = false -> Q (EvWriteBackup entry)) ->
  (forall u, preview_only a = false -> Q (EvDeleteRecord (handle a) u)) ->
  (forall u ans, preview_only a = false ->
     Q (EvRepoDeleteRecord (handle a) "app.bsky.feed.post" (last_segment u) ans)) ->
  always Q (process_loop a posts counts).
Proof.
  intros H1 H2 H3 H4. revert counts.
  induction posts as [|[[u p] pt] posts IH]; intros [d f]; simpl.
  - apply always_ret.
  - apply always_bind; [|intros ?; apply IH].
    unfold process_one, write_log, write_backup.
    apply always_bind; [|intros _].
    { apply always_bind; [by apply always_emit | intros _; apply always_fs_op]. }
    destruct (preview_only a) eqn:Hp; cbn [negb]; [apply always_ret|].
    apply always_bind; [|intros _].
    { apply always_bind; [apply always_emit; by apply H2 | intros _; apply always_fs_op]. }
    apply always_try_except; [|intros _; apply always_ret].
    apply always_bind; [|intros _; apply always_ret].
    apply always_delete_record; [by apply H3 | intros ans; by apply H4].
Qed.

(** Every event of a run is well targeted. *)
Lemma run_well_targeted (a : Args) (w : World) :
  Forall (well_targeted a) (events (process_posts P a w)).
Proof.
  revert w. change (always (well_targeted a) (process_posts P a)).
  unfold process_posts.
  apply always_bind; [|intros _].
  { unfold login. apply always_bind; [by apply always_emit|]. intros _.
    by apply always_silent. }
  apply always_bind; [by apply always_silent|]. intros now.
  apply always_bind; [apply always_lift|]. intros c.
  apply always_bind; [by apply always_silent|]. intros budget.
  apply always_bind; [by apply always_fetch_all|]. intros [posts bar].
  unfold process_matched. destruct (Nat.eqb _ _); [apply always_ret|].
  fold (log_path a). fold (backup_path a).
  apply always_bind; [|intros fh].
  { destruct (preview_only a) eqn:Hp; cbn [negb]; [apply always_ret|].
    apply always_bind; [|intros _; apply always_ret].
    by apply always_open_file. }
  apply always_bind; [|intros counts].
  { unfold with_open. apply always_bind; [by apply always_open_file|]. intros _.
    apply always_finally; [|by apply always_close_file].
    by apply always_process_loop. }
  apply always_bind; [|intros _; apply always_ret].
  destruct fh; [by apply always_close_file | apply always_ret].
Qed.

(** X12. Every call a run makes carries the run's own arguments: the login
    uses the handle and password given, every page request is for that
    handle with page size 50, every delete is for that handle's repo and the
    collection ["app.bsky.feed.post"], the log file opened is the one chosen
    on lines 138-139, and the backup file, opened only outside preview mode,
    the one chosen on lines 143-144. *)
Theorem X12_calls_are_well_targeted (a : Args) (w : World) :
  Forall (well_targeted a) (events (process_posts P a w)).
Proof. apply run_well_targeted. Qed.

(** ** Pagination: cursors, stop condition, retry budget *)

Lemma call_events_readers (actor : string) (cur : option string) (limit : Z)
    (answers : list (Result FeedResponse)) :
  let evs := EvFetchFeedPage actor cur limit
             :: map (EvGetAuthorFeed actor cur limit) answers in
  fetch_cursors evs = [cur] /\ feed_answers evs = answers.
Proof.
  unfold fetch_cursors, feed_answers. cbn.
  induction answers as [|x l [IH1 IH2]]; [done|]. cbn.
  split; [exact IH1 | by f_equal].
Qed.

Lemma fetch_readers_app (l1 l2 : list Event) :
  fetch_cursors (l1 ++ l2) = fetch_cursors l1 ++ fetch_cursors l2
  /\ feed_answers (l1 ++ l2) = feed_answers l1 ++ feed_answers l2.
Proof. unfold fetch_cursors, feed_answers. by rewrite !omap_app. Qed.

(** The pagination loop: the cursor of each call, when it stops, and how
    many attempts it makes. *)
Lemma fetch_all_cursors (budget : nat) (c : Criteria P) (actor : string)
    (cur : option string) (posts : list Matched) (bar : Tqdm) (w : World) :
  let r := fetch_all P budget c actor cur posts bar w in
  let evs := events r in
  fetch_cursors evs = take (fetch_calls evs) (cur :: map cursor (pages_of evs))
  /\ Forall (fun fd => str_truthy (cursor fd) = true) (removelast (pages_of evs))
  /\ (length (pages_of evs) <= fetch_calls evs)%nat
  /\ (fetch_calls evs <= length (feed_answers evs) <= 3 * fetch_calls evs)%nat
  /\ (forall x, outcome r = Ok x ->
        fetch_calls evs = length (pages_of evs)
        /\ exists lastp, last (pages_of evs) = Some lastp
                         /\ str_truthy (cursor lastp) = false).
Proof.
  revert cur posts bar w.
  induction budget as [|budget IH]; intros cur posts bar w; cbn zeta; simpl fetch_all.
  - unfold raise. cbn. repeat split; try done; lia.
  - rewrite bind_unfold.
    destruct (fetch_feed_page_spec actor cur 50 w) as (_ & Hc & _ & Ho).
    destruct (fetch_feed_page_attempts actor cur 50 w)
      as (answers & Hev & Hlen & _).
    destruct (call_events_readers actor cur 50 answers) as [Hcur Hans].
    rewrite <- Hev in Hcur, Hans.
    destruct (fetch_feed_page actor cur 50 w) as [o w1 evs1].
    cbn [outcome final events] in *.
    destruct o as [fd|e]; cbn [events outcome].
    2:{ rewrite Hcur, Hc, Ho, Hans. cbn. repeat split; try done; lia. }
    destruct Ho as [Hpg _]. rewrite bind_unfold. unfold lift. cbn [outcome final events].
    destruct (scan_feed P c (feed fd) posts) as [posts1|e]; cbn [outcome events].
    2:{ rewrite app_nil_r, Hcur, Hc, Hpg, Hans. cbn. repeat split; try done; lia. }
    destruct (str_truthy (cursor fd)) eqn:Htr; cbn [negb].
    + specialize (IH (cursor fd) posts1 (tqdm_update bar) w1).
      cbn zeta in IH. destruct IH as (I1 & I2 & I3 & I4 & I5).
      destruct (fetch_all P budget c actor (cursor fd) posts1 (tqdm_update bar) w1)
        as [o2 w2 evs2]. cbn [outcome final events app] in *.
      destruct (fetch_readers_app evs1 evs2) as [-> ->].
      rewrite pages_of_app, fetch_calls_app, Hcur, Hc, Hpg, Hans.
      cbn [app length Nat.add take map].
      split; [by rewrite I1|]. split.
      { destruct (pages_of evs2) as [|p2 l2] eqn:Hp2; [constructor|].
        change (removelast (fd :: p2 :: l2)) with (fd :: removelast (p2 :: l2)).
        by constructor. }
      split; [lia|]. split; [rewrite ?length_app; lia|].
      intros x Hx. destruct (I5 x Hx) as (J1 & lastp & J2 & J3).
      split; [lia|]. exists lastp. split; [|done].
      destruct (pages_of evs2) as [|p2 l2]; [done|]. by rewrite last_cons_cons.
    + unfold ret. cbn [events outcome]. rewrite !app_nil_r, Hcur, Hc, Hpg, Hans.
      cbn. repeat split; try done; try lia. by exists fd.
Qed.

Lemma no_fetch_readers (l : list Event) :
  forallb (fun e => negb (is_fetch_event e)) l = true ->
  fetch_cursors l = [] /\ feed_answers l = [] /\ pages_of l = []
  /\ fetch_calls l = O.
Proof.
  intros H. split_and!.
  - apply (omap_none _ (fun e => negb (is_fetch_event e))); [by intros [] | exact H].
  - apply (omap_none _ (fun e => negb (is_fetch_event e))); [by intros [] | exact H].
  - apply (omap_none _ (fun e => negb (is_fetch_event e))); [by intros [] | exact H].
  - unfold fetch_calls.
    rewrite (omap_none _ (fun e => negb (is_fetch_event e))); [done | by intros [] | exact H].
Qed.

Lemma process_matched_no_fetch (a : Args) (posts : list Matched) (bar : Tqdm)
    (w : World) :
  forallb (fun e => negb (is_fetch_event e))
    (events (process_matched a posts bar w)) = true.
Proof.
  destruct (process_matched_spec a posts bar w)
    as (pre & le & post & posts' & res & -> & Hpre & Hpost & _ & Ht & _).
  destruct (open_close_part _ Hpre) as (_ & _ & _ & _ & _ & _ & A).
  destruct (open_close_part _ Hpost) as (_ & _ & _ & _ & _ & _ & B).
  destruct (output_part _ (loop_trace_output _ _ _ _ Ht)) as (_ & _ & L).
  by rewrite !forallb_app, A, L, B.
Qed.

(** The pagination part of a run, and what follows it. *)
Lemma run_fetch_view (a : Args) (w : World) :
  let r := process_posts P a w in
  exists fevs rest,
    events r = EvLogin (handle a) (token a) :: fevs ++ rest
    /\ forallb is_fetch_event fevs = true
    /\ forallb (fun e => negb (is_fetch_event e)) rest = true
    /\ fetch_cursors fevs = take (fetch_calls fevs) (None :: map cursor (pages_of fevs))
    /\ Forall (fun fd => str_truthy (cursor fd) = true) (removelast (pages_of fevs))
    /\ (fetch_calls fevs <= length (feed_answers fevs) <= 3 * fetch_calls fevs)%nat
    /\ (forall rr, outcome r = Ok rr ->
          fetch_calls fevs = length (pages_of fevs)
          /\ exists lastp, last (pages_of fevs) = Some lastp
                           /\ str_truthy (cursor lastp) = false)
    /\ ((length (pages_of fevs) < fetch_calls fevs)%nat ->
        rest = [] /\ is_raise (outcome r) = true).
Proof.
  cbn zeta. rewrite process_posts_unfold.
  destruct (login_ok w).
  2:{ exists [], []. cbn. repeat split; try done; lia. }
  destruct (criteria_of P a (now_utc w)) as [c|e].
  2:{ exists [], []. cbn. repeat split; try done; lia. }
  cbn zeta.
  destruct (fetch_all_spec P (S (length (feed_script w))) c (handle a) None []
              (tqdm_new (quiet a)) w) as (Hf & _).
  destruct (fetch_all_cursors (S (length (feed_script w))) c (handle a) None []
              (tqdm_new (quiet a)) w) as (H1 & H2 & H3 & H4 & H5).
  destruct (fetch_all P (S (length (feed_script w))) c (handle a) None []
              (tqdm_new (quiet a)) w) as [o wf fevs].
  cbn [outcome final events] in *.
  destruct o as [[posts bar]|e]; cbn [outcome events].
  - exists fevs, (events (process_matched a posts bar wf)).
    destruct (H5 _ eq_refl) as (J1 & J2).
    split; [done|]. split; [done|]. split; [apply process_matched_no_fetch|].
    repeat split; try done; lia.
  - exists fevs, []. rewrite app_nil_r. repeat split; try done; lia.
Qed.

Lemma run_fetch_readers (a : Args) (fevs rest : list Event) :
  forallb (fun e => negb (is_fetch_event e)) rest = true ->
  let evs := EvLogin (handle a) (token a) :: fevs ++ rest in
  fetch_cursors evs = fetch_cursors fevs
  /\ feed_answers evs = feed_answers fevs
  /\ pages_of evs = pages_of fevs
  /\ fetch_calls evs = fetch_calls fevs.
Proof.
  intros H. destruct (no_fetch_readers _ H) as (R1 & R2 & R3 & R4).
  destruct (fetch_readers_app fevs rest) as [E1 E2].
  cbn zeta. unfold fetch_cursors, feed_answers, pages_of, fetch_calls in *.
  cbn [omap list_omap]. rewrite E1, E2, R1, R2, !omap_app, R3, length_app.
  apply length_zero_iff_nil in R4. rewrite R4, !app_nil_r. cbn. by rewrite Nat.add_0_r.
Qed.

(** X13. The first page is requested with no cursor and every later page
    with the cursor the previous page returned; every page but the last
    received had a non-empty cursor; and when the run returns, every request
    got its page and the last page had no cursor. *)
Theorem X13_cursor_chain (a : Args) (w : World) :
  let r := process_posts P a w in
  let evs := events r in
  fetch_cursors evs = take (fetch_calls evs) (None :: map cursor (pages_of evs))
  /\ Forall (fun fd => str_truthy (cursor fd) = true) (removelast (pages_of evs))
  /\ (forall rr, outcome r = Ok rr ->
        fetch_calls evs = length (pages_of evs)
        /\ exists lastp, last (pages_of evs) = Some lastp
                         /\ str_truthy (cursor lastp) = false).
Proof.
  cbn zeta.
  destruct (run_fetch_view a w) as (fevs & rest & -> & _ & Hr & H1 & H2 & _ & H4 & _).
  destruct (run_fetch_readers a fevs rest Hr) as (-> & _ & -> & ->).
  done.
Qed.

(** X14. A page request that ends without a page aborts the run: the run
    raises, and it has opened no file, written nothing and deleted nothing. *)
Theorem X14_failed_page_aborts (a : Args) (w : World) :
  let r := process_posts P a w in
  (length (pages_of (events r)) < fetch_calls (events r))%nat ->
  is_raise (outcome r) = true
  /\ opened_files (events r) = []
  /\ forallb (fun e => negb (is_output_event e)) (events r) = true.
Proof.
  cbn zeta.
  destruct (run_fetch_view a w) as (fevs & rest & -> & Hf & Hr & _ & _ & _ & _ & Hab).
  destruct (run_fetch_readers a fevs rest Hr) as (_ & _ & -> & ->).
  intros Hlt. destruct (Hab Hlt) as [-> Hraise]. rewrite app_nil_r.
  split; [done|].
  destruct (fetch_part _ Hf) as (_ & _ & _ & _ & _ & Ho).
  split; [|by cbn; rewrite Ho].
  unfold opened_files. cbn.
  apply (omap_none _ is_fetch_event); [by intros [] | exact Hf].
Qed.

Lemma scan_feed_total (c : Criteria P) (items : list FeedViewPost)
    (posts : list Matched) :
  Forall (fun it => is_raise (scan_item P c it) = false) items ->
  scan_feed P c items posts = Ok (posts ++ select P c items).
Proof.
  intros H. revert posts. induction H as [|it l Hit _ IH]; intros posts; simpl.
  - by rewrite app_nil_r.
  - unfold select. cbn [omap list_omap].
    destruct (scan_item P c it) as [[m|]|]; [| |done]; simpl; rewrite IH.
    + by rewrite <- app_assoc.
    + done.
Qed.

Lemma fetch_feed_page_first_ok (actor : string) (cur : option string) (limit : Z)
    (w : World) (fd : FeedResponse) (s0 : list (Result FeedResponse)) :
  feed_script w = Ok fd :: s0 ->
  fetch_feed_page actor cur limit w =
  mk_run (Ok fd) (set_feed_script w s0)
    [EvFetchFeedPage actor cur limit; EvGetAuthorFeed actor cur limit (Ok fd)].
Proof.
  intros Hs. unfold fetch_feed_page, retry_on_network, try_except, bind, emit,
    get_author_feed. simpl. by rewrite Hs.
Qed.

(** X15. When the service answers every request at once with pages whose
    cursors are non-empty except the last one's, and no item makes the scan
    raise, the pagination loop makes exactly one request per page, stops
    after the last page without touching the answers that follow, and
    returns the matched posts of all the pages in order. *)
Theorem X15_pagination_reads_each_page_once (init : list FeedResponse)
    (lastp : FeedResponse) (others : list (Result FeedResponse)) (budget : nat)
    (c : Criteria P) (actor : string) (cur : option string)
    (posts : list Matched) (bar : Tqdm) (w : World) :
  feed_script w = map Ok (init ++ [lastp]) ++ others ->
  Forall (fun fd => str_truthy (cursor fd) = true) init ->
  str_truthy (cursor lastp) = false ->
  Forall (fun fd => Forall (fun it => is_raise (scan_item P c it) = false) (feed fd))
    (init ++ [lastp]) ->
  (length init < budget)%nat ->
  let r := fetch_all P budget c actor cur posts bar w in
  (exists bar', outcome r = Ok (posts ++ selected P c (init ++ [lastp]), bar'))
  /\ feed_script (final r) = others
  /\ fetch_calls (events r) = S (length init)
  /\ pages_of (events r) = init ++ [lastp].
Proof.
  revert budget cur posts bar w.
  induction init as [|fd init IH]; intros budget cur posts bar w Hs Hin Hl Hscan Hb;
    (destruct budget as [|budget]; [simpl in Hb; lia|]); cbn zeta; simpl fetch_all.
  - simpl in Hs. rewrite bind_unfold, (fetch_feed_page_first_ok _ _ _ _ _ _ Hs).
    cbn [outcome final events]. rewrite bind_unfold. unfold lift.
    cbn [outcome final events].
    apply Forall_inv in Hscan. rewrite (scan_feed_total _ _ _ Hscan).
    cbn [outcome final events]. rewrite Hl. cbn.
    unfold selected. cbn. rewrite app_nil_r. split; [by eexists|done].
  - simpl in Hs. rewrite bind_unfold, (fetch_feed_page_first_ok _ _ _ _ _ _ Hs).
    cbn [outcome final events]. rewrite bind_unfold. unfold lift.
    cbn [outcome final events].
    pose proof (Forall_inv Hscan) as Hfd. apply Forall_inv_tail in Hscan.
    rewrite (scan_feed_total _ _ _ Hfd). cbn [outcome final events].
    pose proof (Forall_inv Hin) as Htr. apply Forall_inv_tail in Hin.
    rewrite Htr. cbn [negb].
    destruct (IH budget (cursor fd) (posts ++ select P c (feed fd)) (tqdm_update bar)
                (set_feed_script w (map Ok (init ++ [lastp]) ++ others))
                eq_refl Hin Hl Hscan ltac:(simpl in Hb; lia))
      as ([bar' Ho] & Hrest & Hcalls & Hpages).
    cbn zeta in *.
    destruct (fetch_all P budget c actor (cursor fd) _ _ _) as [o2 w2 evs2].
    cbn [outcome final events app] in *. subst o2.
    split; [|split; [done|]].
    + exists bar'. do 2 f_equal. unfold selected. cbn. by rewrite <- app_assoc.
    + unfold fetch_calls, pages_of in *. cbn. by rewrite Hcalls, Hpages.
Qed.

(** X16. The login comes first: when it fails, or when the cutoff, a date
    bound or a regular expression cannot be built, the run raises with the
    login as its only call, before any page is requested. *)
Theorem X16_errors_before_pagination (a : Args) (w : World) :
  login_ok w = false \/ is_raise (criteria_of P a (now_utc w)) = true ->
  let r := process_posts P a w in
  events r = [EvLogin (handle a) (token a)] /\ is_raise (outcome r) = true.
Proof.
  intros H. cbn zeta. rewrite process_posts_unfold.
  destruct (login_ok w); [|done].
  destruct H as [H|H]; [done|].
  by destruct (criteria_of P a (now_utc w)).
Qed.

(** X17. A run that returns with no matched post has opened no file and
    made no log write, backup write or delete call: the early return of lines
    133-135 comes before the files are opened. *)
Theorem X17_no_match_opens_nothing (a : Args) (w : World) (rr : RunResult) :
  outcome (process_posts P a w) = Ok rr ->
  matched rr = O ->
  opened_files (events (process_posts P a w)) = []
  /\ forallb (fun e => negb (is_output_event e)) (events (process_posts P a w)) = true
  /\ deleted rr = O /\ failed rr = O.
Proof.
  rewrite process_posts_unfold.
  destruct (login_ok w); [|done].
  destruct (criteria_of P a (now_utc w)) as [c|e]; [|done]. cbn zeta.
  destruct (fetch_all_spec P (S (length (feed_script w))) c (handle a) None []
              (tqdm_new (quiet a)) w) as (Hf & _).
  destruct (fetch_all P (S (length (feed_script w))) c (handle a) None []
              (tqdm_new (quiet a)) w) as [o wf fevs].
  cbn [outcome final events] in *.
  destruct o as [[posts bar]|e]; [|done]. cbn [outcome events].
  intros Hrr Hm.
  destruct (process_matched_spec a posts bar wf)
    as (pre & le & post & posts' & res & _ & _ & _ & _ & _ & _ & Hres).
  destruct (Hres rr Hrr) as (_ & Hlen & _).
  destruct posts as [|m posts]; [|rewrite Hm in Hlen; discriminate].
  unfold process_matched in *. cbn in Hrr |- *. injection Hrr as <-.
  rewrite app_nil_r.
  destruct (fetch_part _ Hf) as (_ & _ & _ & _ & _ & Ho).
  split; [|by rewrite Ho].
  apply (omap_none _ is_fetch_event); [by intros [] | exact Hf].
Qed.

(** ** A file system that works *)

Lemma write_healthy (ev : Event) (w : World) :
  fs_healthy w ->
  exists w', (emit ev ;;; fs_op) w = mk_run (Ok tt) w' [ev]
             /\ fs_healthy w' /\ open_handles w' = open_handles w.
Proof.
  unfold fs_healthy, bind, emit, fs_op. cbn.
  destruct (fs_script w) as [|ok s0] eqn:Hs; cbn.
  - intros _. exists w. by rewrite Hs.
  - intros H. pose proof (Forall_inv H) as ->. apply Forall_inv_tail in H.
    by exists (set_fs_script w s0).
Qed.

Lemma delete_step_healthy (h u : string) (d f : nat) (w : World) :
  let r := try_except (delete_record h u ;;; ret (S d, f)) (fun _ => ret (d, S f)) w in
  (exists cnt, outcome r = Ok cnt) /\ fs_script (final r) = fs_script w.
Proof.
  cbn zeta. unfold try_except. rewrite bind_unfold.
  destruct (delete_record_attempts h u w) as (ans & _ & _ & _ & _ & _ & _ & _ & Hfs).
  destruct (delete_record h u w) as [o wf evs]. cbn in *.
  destruct o; cbn; eauto.
Qed.

Lemma process_loop_cons (a : Args) (m : Matched) (rest : list Matched)
    (counts : nat * nat) :
  process_loop a (m :: rest) counts
  = bind (process_one a m counts) (fun counts' => process_loop a rest counts').
Proof. reflexivity. Qed.

Lemma process_loop_healthy (a : Args) (posts : list Matched) (counts : nat * nat)
    (w : World) :
  fs_healthy w ->
  (exists cnt, outcome (process_loop a posts counts w) = Ok cnt)
  /\ fs_healthy (final (process_loop a posts counts w)).
Proof.
  revert counts w. induction posts as [|[[u p] pt] posts IH]; intros [d f] w Hw.
  - cbn. eauto.
  - rewrite process_loop_cons, bind_unfold.
    assert ((exists cnt, outcome (process_one a (u, p, pt) (d, f) w) = Ok cnt)
            /\ fs_healthy (final (process_one a (u, p, pt) (d, f) w))) as [[cnt Hc] Hh].
    { unfold process_one, write_log, write_backup. rewrite bind_unfold.
      destruct (write_healthy (EvWriteLog pt (replace_newlines (default "" (record_text p)))) w Hw)
        as (w1 & -> & H1 & _). cbn [outcome final events].
      destruct (preview_only a); cbn [negb]; [cbn; eauto|].
      rewrite bind_unfold.
      destruct (write_healthy (EvWriteBackup (mk_entry u pt p)) w1 H1)
        as (w2 & -> & H2 & _). cbn [outcome final events].
      destruct (delete_step_healthy (handle a) u d f w2) as [[cnt Hc] Hfs].
      cbn zeta in *. split; [by exists cnt|].
      unfold fs_healthy in *. by rewrite Hfs. }
    rewrite Hc. cbn [outcome final events].
    by apply IH.
Qed.

Lemma fetch_feed_page_fs (actor : string) (cur : option string) (limit : Z)
    (w : World) :
  fs_script (final (fetch_feed_page actor cur limit w)) = fs_script w.
Proof.
  unfold fetch_feed_page, retry_on_network, try_except, bind, emit, get_author_feed.
  simpl.
  by destruct (feed_script w) as [|[fd1|e1] [|[fd2|e2] [|[fd3|e3] s3]]] eqn:Hs;
    simpl; rewrite ?Hs; simpl; rewrite ?Hs; simpl.
Qed.

Lemma fetch_all_fs (budget : nat) (c : Criteria P) (actor : string)
    (cur : option string) (posts : list Matched) (bar : Tqdm) (w : World) :
  fs_script (final (fetch_all P budget c actor cur posts bar w)) = fs_script w.
Proof.
  revert cur posts bar w. induction budget as [|budget IH]; intros cur posts bar w;
    simpl fetch_all; [done|].
  rewrite bind_unfold. pose proof (fetch_feed_page_fs actor cur 50 w) as Hfs.
  destruct (fetch_feed_page actor cur 50 w) as [o w1 evs1]. cbn in *.
  destruct o as [fd|e]; cbn; [|done].
  rewrite bind_unfold. unfold lift. cbn.
  destruct (scan_feed P c (feed fd) posts); cbn; [|done].
  destruct (str_truthy (cursor fd)); cbn; [|done]. by rewrite IH.
Qed.

Lemma process_matched_healthy (a : Args) (posts : list Matched) (bar : Tqdm)
    (w : World) :
  fs_healthy w -> exists rr, outcome (process_matched a posts bar w) = Ok rr.
Proof.
  intros Hw. unfold process_matched. destruct (Nat.eqb _ _); [cbn; eauto|].
  set (lf := if str_truthy (log_file a) then _ else _).
  set (bf := if str_truthy (backup_file a) then _ else _).
  assert (forall h path w0, fs_healthy w0 ->
            exists w', open_file h path w0 = mk_run (Ok tt) w' [EvOpen h path]
                       /\ fs_healthy w') as Hopen.
  { intros h path w0. unfold open_file, fs_healthy, bind, emit, fs_op. cbn.
    destruct (fs_script w0) as [|ok s0] eqn:Hs; cbn.
    - intros _. eexists. split; [reflexivity|]. cbn. by rewrite Hs.
    - intros H. pose proof (Forall_inv H) as ->. apply Forall_inv_tail in H.
      eexists. split; [reflexivity|]. done. }
  assert (forall w0, fs_healthy w0 ->
            exists cnt, outcome (with_open HLog lf (process_loop a posts (O, O)) w0) = Ok cnt)
    as Hwith.
  { intros w0 H0. unfold with_open. rewrite bind_unfold.
    destruct (Hopen HLog lf w0 H0) as (w1 & -> & H1). cbn [outcome final events].
    unfold finally. cbn [outcome].
    by destruct (process_loop_healthy a posts (O, O) w1 H1) as [? _]. }
  rewrite bind_unfold.
  destruct (preview_only a); cbn [negb].
  - unfold ret. cbn [outcome final events]. rewrite bind_unfold.
    destruct (Hwith w Hw) as [cnt ->]. cbn. eauto.
  - rewrite bind_unfold. destruct (Hopen HBackup bf w Hw) as (w1 & -> & H1).
    cbn [outcome final events ret]. rewrite bind_unfold.
    destruct (Hwith w1 H1) as [cnt ->]. cbn. eauto.
Qed.

(** X18. With a file system on which every operation succeeds, a run that
    raises has opened no file and made no log write, backup write or delete
    call: once the files are open, no answer of the service to a delete makes
    the run raise. *)
Theorem X18_delete_failures_never_raise (a : Args) (w : World) :
  fs_healthy w ->
  is_raise (outcome (process_posts P a w)) = true ->
  opened_files (events (process_posts P a w)) = []
  /\ forallb (fun e => negb (is_output_event e)) (events (process_posts P a w)) = true.
Proof.
  intros Hw. rewrite process_posts_unfold.
  destruct (login_ok w); [|done].
  destruct (criteria_of P a (now_utc w)) as [c|e]; [|done]. cbn zeta.
  destruct (fetch_all_spec P (S (length (feed_script w))) c (handle a) None []
              (tqdm_new (quiet a)) w) as (Hf & _).
  pose proof (fetch_all_fs (S (length (feed_script w))) c (handle a) None []
                (tqdm_new (quiet a)) w) as Hfs.
  destruct (fetch_all P (S (length (feed_script w))) c (handle a) None []
              (tqdm_new (quiet a)) w) as [o wf fevs].
  cbn [outcome final events] in *.
  destruct o as [[posts bar]|e]; cbn [outcome events].
  - assert (fs_healthy wf) as Hwf by (unfold fs_healthy in *; by rewrite Hfs).
    destruct (process_matched_healthy a posts bar wf Hwf) as [rr ->]. done.
  - intros _. destruct (fetch_part _ Hf) as (_ & _ & _ & _ & _ & Ho).
    split; [|by cbn; rewrite Ho].
    unfold opened_files. cbn.
    apply (omap_none _ is_fetch_event); [by intros [] | exact Hf].
Qed.

(** Lines 146-178: which handles are open when the function is left. *)
Lemma process_matched_handles (a : Args) (posts : list Matched) (bar : Tqdm)
    (w : World) :
  let r := process_matched a posts bar w in
  open_handles (final r) = open_handles w
  \/ (open_handles (final r) = HBackup :: open_handles w
      /\ is_raise (outcome r) = true /\ preview_only a = false).
Proof.
  cbn zeta. unfold process_matched.
  destruct (Nat.eqb (length posts) 0); [by left|].
  set (lf := if str_truthy (log_file a) then _ else _).
  set (bf := if str_truthy (backup_file a) then _ else _).
  destruct (preview_only a) eqn:Hprev; cbn [negb].
  - rewrite bind_unfold. unfold ret. cbn [outcome final events].
    rewrite bind_unfold.
    destruct (with_open_spec HLog lf (process_loop a posts (O, O)) w)
      as (o & w1 & _ & Hw).
    destruct o as [[]|e]; destruct Hw as [Hh1 ->]; cbn [outcome final events].
    + destruct (process_loop_spec a posts (O, O) w1) as (res & _ & Hh2 & _).
      destruct (process_loop a posts (O, O) w1) as [o2 w2 evs2].
      cbn [outcome final events] in *. left.
      destruct o2; cbn; by rewrite Hh2, Hh1, remove_handle_head.
    + by left.
  - rewrite bind_unfold, bind_unfold.
    destruct (open_file_spec HBackup bf w) as (o & w0 & -> & Hh0).
    cbn [outcome final events].
    destruct o as [[]|e]; cbn [outcome final events ret]; [|by left].
    rewrite bind_unfold.
    destruct (with_open_spec HLog lf (process_loop a posts (O, O)) w0)
      as (o & w1 & _ & Hw).
    destruct o as [[]|e]; destruct Hw as [Hh1 ->]; cbn [outcome final events].
    + destruct (process_loop_spec a posts (O, O) w1) as (res & _ & Hh2 & _).
      destruct (process_loop a posts (O, O) w1) as [o2 w2 evs2].
      cbn [outcome final events] in *.
      destruct o2; cbn.
      * left. by rewrite Hh2, Hh1, Hh0, !remove_handle_head.
      * right. by rewrite Hh2, Hh1, Hh0, remove_handle_head.
    + right. by rewrite Hh1, Hh0.
Qed.

(** X19. When a run is over, the set of open handles is what it was before,
    except that the backup handle is left open when the run raised after
    opening it, outside preview mode.  The log handle is never left open, and
    a run that returns leaves nothing open. *)
Theorem X19_only_backup_handle_can_leak (a : Args) (w : World) :
  let r := process_posts P a w in
  open_handles (final r) = open_handles w
  \/ (open_handles (final r) = HBackup :: open_handles w
      /\ is_raise (outcome r) = true /\ preview_only a = false).
Proof.
  cbn zeta. rewrite process_posts_unfold.
  destruct (login_ok w); [|by left].
  destruct (criteria_of P a (now_utc w)) as [c|e]; [|by left]. cbn zeta.
  destruct (fetch_all_spec P (S (length (feed_script w))) c (handle a) None []
              (tqdm_new (quiet a)) w) as (_ & Hh & _).
  destruct (fetch_all P (S (length (feed_script w))) c (handle a) None []
              (tqdm_new (quiet a)) w) as [o wf fevs].
  cbn [outcome final events] in *.
  destruct o as [[posts bar]|e]; cbn [outcome final]; [|by left].
  destruct (process_matched_handles a posts bar wf) as [H | (H & Hr & Hp)].
  - left. cbn zeta in H. congruence.
  - right. cbn zeta in *. split; [congruence | done].
Qed.

(** ** What is deleted, and how often it is tried *)

Lemma attempts_readers (a : Args) (m : Matched) (answers : list (Result unit)) :
  delete_rkeys (ev_attempts a m answers)
  = map (fun _ => last_segment (m_uri m)) answers
  /\ delete_answers (ev_attempts a m answers) = answers.
Proof.
  unfold delete_rkeys, delete_answers, ev_attempts.
  induction answers as [|x l [IH1 IH2]]; [done|]. cbn.
  split; by f_equal.
Qed.

Lemma retry_run_length (answers : list (Result unit)) (ok : bool) :
  retry_run answers ok -> (1 <= length answers <= 3)%nat.
Proof. destruct 1; cbn; lia. Qed.

Lemma post_block_deletes (a : Args) (m : Matched) (evs : list Event)
    (res : option (nat * nat)) :
  post_block a m evs res ->
  (forall k, In k (delete_rkeys evs) ->
     In (m_uri m) (delete_calls evs) /\ k = last_segment (m_uri m))
  /\ (length (delete_calls evs) <= length (delete_answers evs)
      <= 3 * length (delete_calls evs))%nat.
Proof.
  destruct 1 as [| | |answers _ Hrr|answers _ Hrr]; try (cbn; split; [done|lia]).
  all: destruct (attempts_readers a m answers) as [Hk Ha].
  all: apply retry_run_length in Hrr.
  all: unfold delete_rkeys, delete_answers, delete_calls in *.
  all: rewrite !omap_app, Hk, Ha, (omap_attempts a _ m answers) by done.
  all: cbn; split; [|lia].
  all: intros k Hin; apply in_map_iff in Hin as (? & <- & _); auto.
Qed.

Lemma loop_trace_deletes (a : Args) (posts : list Matched) (evs : list Event)
    (res : option (nat * nat)) :
  loop_trace a posts evs res ->
  (forall k, In k (delete_rkeys evs) ->
     exists u, In u (delete_calls evs) /\ k = last_segment u)
  /\ (length (delete_calls evs) <= length (delete_answers evs)
      <= 3 * length (delete_calls evs))%nat.
Proof.
  induction 1 as [|m rest evs Hb|m rest evs d f evs' res Hb _ [IH1 IH2]].
  - cbn. split; [done|lia].
  - destruct (post_block_deletes _ _ _ _ Hb) as [H1 H2]. split; [|done].
    intros k Hk. destruct (H1 k Hk). eauto.
  - destruct (post_block_deletes _ _ _ _ Hb) as [H1 H2].
    unfold delete_rkeys, delete_answers, delete_calls in *.
    rewrite !omap_app, !length_app. split; [|lia].
    intros k [Hk|Hk]%in_app_iff.
    + destruct (H1 k Hk) as [Hu ->]. exists (m_uri m).
      split; [apply in_app_iff; by left | done].
    + destruct (IH1 k Hk) as (u & Hu & ->). exists u.
      split; [apply in_app_iff; by right | done].
Qed.

Lemma shape_delete_readers (a : Args) (w : World) (r : Run RunResult)
    (fe pre le post : list Event) (posts : list Matched) (res : option (nat * nat)) :
  run_shape P a w r fe pre le post posts res ->
  delete_rkeys (events r) = delete_rkeys le
  /\ delete_answers (events r) = delete_answers le.
Proof.
  intros [Hev Hf Hpre Hpost _ _ _ _]. rewrite Hev.
  unfold delete_rkeys, delete_answers. cbn [omap list_omap].
  rewrite !omap_app.
  rewrite !(omap_none _ is_fetch_event fe), !(omap_none _ is_open_close pre),
    !(omap_none _ is_open_close post); try done; try (by intros []).
  by rewrite !app_nil_r.
Qed.

(** X20. Only matched posts are deleted: every delete call is for the uri
    of a post that the service returned in a page of this run and that the
    filter kept, and every delete attempt carries the last path segment of
    the uri of such a call. *)
Theorem X20_only_matched_posts_deleted (a : Args) (w : World) (c : Criteria P) :
  criteria_of P a (now_utc w) = Ok c ->
  let evs := events (process_posts P a w) in
  (forall u, In u (delete_calls evs) ->
     exists fd item m,
       In fd (pages_of evs) /\ In item (feed fd)
       /\ scan_item P c item = Ok (Some m) /\ u = uri (post item))
  /\ (forall k, In k (delete_rkeys evs) ->
        exists u, In u (delete_calls evs) /\ k = last_segment u).
Proof.
  intros Hc. cbn zeta.
  destruct (process_posts_shape P a w) as (fe & pre & le & post & posts & res & Hs).
  pose proof (shape_projections P _ _ _ _ _ _ _ _ _ Hs) as (Hpg & _ & _ & _ & Hdc & _).
  pose proof (shape_delete_readers _ _ _ _ _ _ _ _ _ Hs) as (Hrk & _).
  destruct Hs as [_ _ _ _ _ Ht Hposts _].
  rewrite Hpg, Hdc, Hrk.
  destruct (loop_trace_deletes _ _ _ _ Ht) as [Hk _]. split; [|done].
  intros u Hu.
  destruct (loop_trace_prefix _ _ _ _ Ht) as (_ & _ & k3 & _ & _ & Hd).
  rewrite Hd in Hu. apply in_map_iff in Hu as (m & <- & Hm).
  apply list_elem_of_In, subseteq_take, list_elem_of_In in Hm.
  destruct Hposts as [-> | (c' & Hc' & ->)]; [done|].
  assert (c' = c) as -> by congruence.
  unfold selected in Hm. apply in_concat in Hm as (l & Hl & Hm).
  apply in_map_iff in Hl as (fd & <- & Hfd).
  apply elem_of_select in Hm as (item & Hitem & Hscan).
  exists fd, item, m. repeat split; try done.
  by apply scan_item_entry in Hscan as (_ & -> & _).
Qed.

(** X21. The retry budget of a whole run: the [get_author_feed] attempts
    are at least as many as the page requests and at most three times as
    many, and likewise the [repo.delete_record] attempts against the delete
    calls. *)
Theorem X21_at_most_three_attempts_per_call (a : Args) (w : World) :
  let evs := events (process_posts P a w) in
  (fetch_calls evs <= length (feed_answers evs) <= 3 * fetch_calls evs)%nat
  /\ (length (delete_calls evs) <= length (delete_answers evs)
      <= 3 * length (delete_calls evs))%nat.
Proof.
  cbn zeta. split.
  - destruct (run_fetch_view a w) as (fevs & rest & -> & _ & Hr & _ & _ & H & _).
    by destruct (run_fetch_readers a fevs rest Hr) as (_ & -> & _ & ->).
  - destruct (process_posts_shape P a w) as (fe & pre & le & post & posts & res & Hs).
    pose proof (shape_projections P _ _ _ _ _ _ _ _ _ Hs) as (_ & _ & _ & _ & Hdc & _).
    pose proof (shape_delete_readers _ _ _ _ _ _ _ _ _ Hs) as (_ & Hda).
    destruct Hs as [_ _ _ _ _ Ht _ _]. rewrite Hdc, Hda.
    by destruct (loop_trace_deletes _ _ _ _ Ht).
Qed.

(** ** [cli] *)


Lemma resolve_token_run (env : CliEnv) (token : option string) (w : World) :
  let flag_or_env := if str_truthy token then token
                     else environ env !! "BYESKY_TOKEN" in
  resolve_token env token w =
  if str_truthy flag_or_env
  then mk_run (Ok (default "" flag_or_env)) w []
  else mk_run (Ok (strip (getpass_answer env))) w [EvGetpass].
Proof.
  cbn zeta. unfold resolve_token.
  by destruct (str_truthy (if str_truthy token then token else _)).
Qed.

Lemma cli_unfold (env : CliEnv) (h : string) (token : option string) (days : Z)
    (preview : bool) (lf : option string) (pats : list string) (rx : bool)
    (af be bf : option string) (irep irp verbose q : bool) (w : World) :
  exists t gp,
    resolve_token env token w = mk_run (Ok t) w gp
    /\ (gp = [] \/ gp = [EvGetpass])
    /\ let r := process_posts P (mk_args h t days preview lf pats rx af be bf irep irp q) w in
       cli P env h token days preview lf pats rx af be bf irep irp verbose q w
       = mk_run (match outcome r with
                 | Ok rr => Ok (if (0 <? failed rr)%nat then 1 else 0)
                 | Raise e => Raise e
                 end) (final r) (gp ++ events r).
Proof.
  pose proof (resolve_token_run env token w) as Hr. cbn zeta in Hr.
  unfold cli. rewrite bind_unfold, Hr.
  destruct (str_truthy (if str_truthy token then token else _));
    cbn [outcome final events]; eexists _, _; (split; [reflexivity|]);
    (split; [auto|]); cbn zeta; rewrite bind_unfold;
    destruct (process_posts P _ w) as [o wf evs]; cbn [outcome final events];
    destruct o; cbn; by rewrite ?app_nil_r.
Qed.




Lemma opened_files_targeted (a : Args) (evs : list Event) :
  Forall (well_targeted a) evs ->
  Forall (fun hp => hp = (HLog, log_path a)
                    \/ (hp = (HBackup, backup_path a) /\ preview_only a = false))
    (opened_files evs).
Proof.
  induction 1 as [|e l He _ IH]; [constructor|].
  unfold opened_files in *. destruct e; cbn; try done.
  constructor; [|done]. destruct h; cbn in He.
  - right. by destruct He as [-> ?].
  - left. by rewrite He.
Qed.

(** X24. The log file [cli] names in its summary (line 253) is the file the
    run opened for logging (lines 138-139, 156); the only other file a run
    opens is the backup file, and never in preview mode. *)
Theorem X24_summary_names_the_log_opened (env : CliEnv) (h : string)
    (token : option string) (days : Z) (preview : bool) (lf : option string)
    (pats : list string) (rx : bool) (af be bf : option string)
    (irep irp verbose q : bool) (w : World) :
  Forall (fun hp => hp = (HLog, summary_log_file lf preview)
                    \/ (exists p, hp = (HBackup, p)) /\ preview = false)
    (opened_files (events (cli P env h token days preview lf pats rx af be bf
                             irep irp verbose q w))).
Proof.
  destruct (cli_unfold env h token days preview lf pats rx af be bf irep irp verbose q w)
    as (t & gp & _ & Hgp & ->). cbn [events].
  set (a := mk_args h t days preview lf pats rx af be bf irep irp q).
  pose proof (opened_files_targeted a _ (run_well_targeted a w)) as H.
  assert (opened_files (gp ++ events (process_posts P a w))
          = opened_files (events (process_posts P a w))) as ->.
  { unfold opened_files. rewrite omap_app. by destruct Hgp as [-> | ->]. }
  eapply Forall_impl; [exact H|]. cbn.
  intros hp [-> | [-> Hp]]; [by left|]. right. split; [by eexists | done].
Qed.

(** X25. With the page bar enabled (no [--quiet]), the [scanned] counter of
    a returned result is fifty times the number of [fetch_feed_page] calls,
    whatever the pages held. *)
Theorem X25_scanned_counts_pages (a : Args) (w : World) (rr : RunResult) :
  quiet a = false ->
  outcome (process_posts P a w) = Ok rr ->
  scanned rr = (fetch_calls (events (process_posts P a w)) * 50)%nat.
Proof. apply scanned_when_not_quiet. Qed.

(** X26. A missing embed and a mapping-style embed never make the
    classification raise: no embed is no repost, and a [dict] is a repost
    exactly when its ["$type"] key holds the repost view type, so an empty
    [dict] or one without that key is none. *)
Theorem X26_dict_embed_classified_by_type_key (d : gmap string pyval) :
  is_repost_of None = Ok false
  /\ exists b, is_repost_of (Some (EmbedDict d)) = Ok b
               /\ (b = true <-> d !! "$type" = Some (PyStr REPOST_VIEW)).
Proof.
  split; [done|].
  destruct (is_repost_of (Some (EmbedDict d))) as [b|e] eqn:Hr.
  - exists b. split; [done|]. rewrite <- is_repost_of_dict, Hr.
    split; [by intros -> | by intros [= ->]].
  - exfalso. unfold is_repost_of in Hr. simpl in Hr.
    by destruct (negb _).
Qed.

End MoreRunFacts.

(** * Beyond the claims: runs of the model *)

Section MoreRuns.

Import Demo.

Lemma X3_recent_post_not_inspected_witness :
  isoparse platform (indexed_at (post new_year_item))
  = Ok (mk_datetime NOON_2024_01_01 (Some 0))
  /\ instant (cutoff early_criteria)
     <= instant (normalize_indexed_at platform (mk_datetime NOON_2024_01_01 (Some 0)))
  /\ scan_item platform early_criteria new_year_item = Ok None.
Proof.
  assert (instant (cutoff early_criteria)
          <= instant (normalize_indexed_at platform (mk_datetime NOON_2024_01_01 (Some 0))))
    as Hle by (vm_compute; discriminate).
  split; [reflexivity|]. split; [exact Hle|].
  exact (X3_recent_post_not_inspected platform early_criteria new_year_item _
           eq_refl Hle).
Defined.

Lemma X4_embed_without_type_raises_witness :
  isoparse platform (indexed_at (post old_bare_item)) = Ok old_pt0
  /\ instant (normalize_indexed_at platform old_pt0) < instant (cutoff demo_criteria)
  /\ embed (post old_bare_item)
     = Some (EmbedObject {[ "$type" := PyStr REPOST_VIEW ]})
  /\ is_Some (({[ "$type" := PyStr REPOST_VIEW ]} : gmap string pyval) !! "$type")
  /\ ({[ "$type" := PyStr REPOST_VIEW ]} : gmap string pyval) !! "type" = None
  /\ scan_item platform demo_criteria old_bare_item = Raise AttributeError.
Proof.
  assert (instant (normalize_indexed_at platform old_pt0) < instant (cutoff demo_criteria))
    as Hlt by (vm_compute; reflexivity).
  assert (is_Some (({[ "$type" := PyStr REPOST_VIEW ]} : gmap string pyval) !! "$type"))
    as Hd by (by eexists).
  split; [reflexivity|]. split; [exact Hlt|]. split; [reflexivity|].
  split; [exact Hd|]. split; [reflexivity|].
  exact (X4_embed_without_type_raises platform demo_criteria old_bare_item old_pt0 _
           eq_refl Hlt eq_refl Hd eq_refl).
Defined.

Lemma X5_scan_feed_first_error_witness :
  Forall (fun it => is_raise (scan_item platform demo_criteria it) = false) [old_item]
  /\ scan_item platform demo_criteria undated_item = Raise ValueError
  /\ scan_feed platform demo_criteria ([old_item] ++ undated_item :: [old_item]) []
     = Raise ValueError.
Proof.
  assert (Forall (fun it => is_raise (scan_item platform demo_criteria it) = false)
            [old_item]) as Hb by (repeat constructor).
  split; [exact Hb|]. split; [reflexivity|].
  exact (X5_scan_feed_first_error platform demo_criteria [old_item] [old_item]
           undated_item ValueError [] Hb eq_refl).
Defined.

Lemma X7_normalize_aware_instant_witness :
  tzinfo noon_plus_two = Some (2 * HOUR)
  /\ instant (normalize_indexed_at platform noon_plus_two) = instant noon_plus_two.
Proof.
  split; [reflexivity|].
  exact (X7_normalize_aware_instant platform noon_plus_two (2 * HOUR) eq_refl).
Defined.

Lemma X8_criteria_are_utc_witness :
  criteria_of platform (args true false) NOW = Ok args_criteria
  /\ tzinfo (cutoff args_criteria) = Some 0.
Proof.
  split; [reflexivity|].
  exact (proj1 (X8_criteria_are_utc platform (args true false) NOW args_criteria eq_refl)).
Defined.

Lemma X9_empty_pattern_matches_all_witness :
  In "" ["foo"; ""]
  /\ str_lower platform "" = ""
  /\ patterns_match platform (Substrings ["foo"; ""]) "Foobar" = true.
Proof.
  assert (In "" ["foo"; ""]) as Hin by (right; left; reflexivity).
  split; [exact Hin|]. split; [reflexivity|].
  exact (X9_empty_pattern_matches_all platform ["foo"; ""] "" "Foobar" Hin eq_refl).
Defined.

Lemma X14_failed_page_aborts_witness :
  (length (pages_of (events (process_posts platform (args false false) world_unreachable)))
   < fetch_calls (events (process_posts platform (args false false) world_unreachable)))%nat
  /\ is_raise (outcome (process_posts platform (args false false) world_unreachable)) = true.
Proof.
  assert ((length (pages_of (events (process_posts platform (args false false)
                                       world_unreachable)))
           < fetch_calls (events (process_posts platform (args false false)
                                    world_unreachable)))%nat)
    as Hlt by (vm_compute; lia).
  split; [exact Hlt|].
  exact (proj1 (X14_failed_page_aborts platform (args false false) world_unreachable Hlt)).
Defined.

Lemma X15_pagination_reads_each_page_once_witness :
  feed_script world_two_pages = map Ok ([first_page] ++ [last_page]) ++ [Raise NetworkError]
  /\ Forall (fun fd => str_truthy (cursor fd) = true) [first_page]
  /\ str_truthy (cursor last_page) = false
  /\ Forall (fun fd => Forall (fun it => is_raise (scan_item platform demo_criteria it) = false)
                         (feed fd)) ([first_page] ++ [last_page])
  /\ (length [first_page] < 5)%nat
  /\ feed_script (final (fetch_all platform 5 demo_criteria "me.bsky.social" None []
                           (tqdm_new false) world_two_pages))
     = [Raise NetworkError].
Proof.
  assert (Forall (fun fd => str_truthy (cursor fd) = true) [first_page]) as H1
    by (repeat constructor).
  assert (Forall (fun fd => Forall (fun it => is_raise (scan_item platform demo_criteria it)
                                              = false) (feed fd))
            ([first_page] ++ [last_page])) as H2 by (repeat constructor).
  assert ((length [first_page] < 5)%nat) as H3 by (cbn; lia).
  split; [reflexivity|]. split; [exact H1|]. split; [reflexivity|].
  split; [exact H2|]. split; [exact H3|].
  exact (proj1 (proj2 (X15_pagination_reads_each_page_once platform [first_page] last_page
                         [Raise NetworkError] 5 demo_criteria "me.bsky.social" None []
                         (tqdm_new false) world_two_pages eq_refl H1 eq_refl H2 H3))).
Defined.

Lemma X16_errors_before_pagination_witness :
  (login_ok world_preview = false
   \/ is_raise (criteria_of platform args_bad_after (now_utc world_preview)) = true)
  /\ events (process_posts platform args_bad_after world_preview)
     = [EvLogin "me.bsky.social" "app-password"].
Proof.
  assert (login_ok world_preview = false
          \/ is_raise (criteria_of platform args_bad_after (now_utc world_preview)) = true)
    as H by (right; reflexivity).
  split; [exact H|].
  exact (proj1 (X16_errors_before_pagination platform args_bad_after world_preview H)).
Defined.

Lemma X17_no_match_opens_nothing_witness :
  outcome (process_posts platform (args false false) world_empty_feed)
  = Ok (mk_result 50 0 0 0)
  /\ matched (mk_result 50 0 0 0) = O
  /\ opened_files (events (process_posts platform (args false false) world_empty_feed)) = [].
Proof.
  split; [reflexivity|]. split; [reflexivity|].
  exact (proj1 (X17_no_match_opens_nothing platform (args false false) world_empty_feed
                  (mk_result 50 0 0 0) eq_refl eq_refl)).
Defined.

Lemma X18_delete_failures_never_raise_witness :
  fs_healthy world_unreachable
  /\ is_raise (outcome (process_posts platform (args false false) world_unreachable)) = true
  /\ opened_files (events (process_posts platform (args false false) world_unreachable)) = [].
Proof.
  assert (fs_healthy world_unreachable) as H by constructor.
  split; [exact H|]. split; [reflexivity|].
  exact (proj1 (X18_delete_failures_never_raise platform (args false false)
                  world_unreachable H eq_refl)).
Defined.

Lemma X20_only_matched_posts_deleted_witness :
  criteria_of platform (args false false) (now_utc world_one_failure) = Ok args_criteria
  /\ (forall k, In k (delete_rkeys (events (process_posts platform (args false false)
                                              world_one_failure))) ->
        exists u, In u (delete_calls (events (process_posts platform (args false false)
                                                world_one_failure)))
                  /\ k = last_segment u).
Proof.
  split; [reflexivity|].
  exact (proj2 (X20_only_matched_posts_deleted platform (args false false)
                  world_one_failure args_criteria eq_refl)).
Defined.


Lemma X25_scanned_counts_pages_witness :
  quiet (args false false) = false
  /\ outcome (process_posts platform (args false false) world_one_failure)
     = Ok (mk_result 50 2 1 1)
  /\ scanned (mk_result 50 2 1 1)
     = (fetch_calls (events (process_posts platform (args false false) world_one_failure))
        * 50)%nat.
Proof.
  split; [reflexivity|]. split; [reflexivity|].
  exact (X25_scanned_counts_pages platform (args false false) world_one_failure
           (mk_result 50 2 1 1) eq_refl eq_refl).
Defined.

End MoreRuns.
